(** * atuin-fzf: a shallow embedding of [main.go] and of package [tcolor]

    The program has two modes.  In search mode [run] starts [atuin search],
    lets [atuinAdapt] decorate every line of its output on a goroutine that
    writes into an [os.Pipe], and hands the read end of the pipe to [fzf].
    In preview mode [fzfPreview] prints a report about one record and the
    deduplicated results of two more [atuin search] queries.

    Go strings are byte sequences and are rendered as [string]; a Go [error]
    that may be [nil] is an [option error]; a panic is a value of its own.
    The functions of Go's library that the program calls ([strings.Split],
    [strings.Join], the verbs of [fmt], [errors.Join]) are written out after
    their sources.  A [bufio.Scanner] is the list of the tokens it yields
    and the error it ends with.

    What [main], [run] and [fzfPreview] do to the outside (printing,
    starting and awaiting processes) is a trace of events built in a state
    monad; what the outside answers is a record [Env].  The goroutine of
    [atuinAdapt] is a function of its own from the scanner and the pipe to
    the way it ends; how its steps interleave with [run] is not modelled. *)

From Stdlib Require Import DecimalString.
From stdpp Require Import gmap strings list.

Open Scope string_scope.
Open Scope list_scope.
Open Scope nat_scope.

Set Warnings "-clear-no-such-hyp".

(** ** Byte strings *)

Module Str.

(** [s[:n]] *)
Fixpoint take (n : nat) (s : string) : string :=
  match n, s with
  | S n', String c s' => String c (take n' s')
  | _, _ => ""
  end.

(** [s[n:]] *)
Fixpoint drop (n : nat) (s : string) : string :=
  match n, s with
  | S n', String _ s' => drop n' s'
  | _, _ => s
  end.

(** [strings.Repeat(" ", n)], the padding [fmt] writes. *)
Fixpoint spaces (n : nat) : string :=
  match n with
  | 0 => ""
  | S n' => String (Ascii.ascii_of_nat 32) (spaces n')
  end.

(** [strings.HasPrefix(s, prefix)] *)
Fixpoint HasPrefix (s prefix : string) {struct prefix} : bool :=
  match prefix, s with
  | "", _ => true
  | String a p', String b s' => if decide (a = b) then HasPrefix s' p' else false
  | String _ _, "" => false
  end.

(** [strings.Index(s, substr)]: the byte offset of the first occurrence of
    [substr] in [s]; Go's [-1] is [None]. *)
Fixpoint Index (s substr : string) : option nat :=
  if HasPrefix s substr then Some 0
  else match s with
       | "" => None
       | String _ s' => S <$> Index s' substr
       end.

(** [strings.Contains(s, substr)] *)
Definition Contains (s substr : string) : bool := bool_decide (is_Some (Index s substr)).

(** [strings.Count(s, substr)] for a non-empty [substr]: the loop
    [for { i := Index(s, substr); if i == -1 { return n }; n++;
    s = s[i+len(substr):] }].  Every round drops at least one byte, so
    [length s] rounds are enough (lemma [Count_loop_fuel]). *)
Fixpoint Count_loop (fuel : nat) (s substr : string) : nat :=
  match fuel with
  | 0 => 0
  | S fuel' =>
      match Index s substr with
      | None => 0
      | Some i => S (Count_loop fuel' (drop (i + String.length substr) s) substr)
      end
  end.

Definition Count (s substr : string) : nat := Count_loop (String.length s) s substr.

(** The loop of [strings.genSplit]:
    [for i < n { m := Index(s, sep); if m < 0 { break }; a[i] = s[:m];
    s = s[m+len(sep):]; i++ }; a[i] = s; return a[:i+1]]. *)
Fixpoint genSplit_loop (n : nat) (s sep : string) : list string :=
  match n with
  | 0 => [s]
  | S n' =>
      match Index s sep with
      | None => [s]
      | Some m => take m s :: genSplit_loop n' (drop (m + String.length sep) s) sep
      end
  end.

(** [strings.genSplit(s, sep, 0, n)] on its path for a non-empty [sep]; the
    program only splits at [":::"] and at a tab, so the [sep == ""] path
    ([explode]) is never taken and is not rendered. *)
Definition genSplit (s sep : string) (n : Z) : list string :=
  if decide (n = 0)%Z then []
  else
    let n := if decide (n < 0)%Z then (Z.of_nat (Count s sep) + 1)%Z else n in
    let n := if decide (n > Z.of_nat (String.length s) + 1)%Z
             then (Z.of_nat (String.length s) + 1)%Z else n in
    genSplit_loop (Z.to_nat (n - 1)) s sep.

(** [strings.Split(s, sep)] and [strings.SplitN(s, sep, n)] *)
Definition Split (s sep : string) : list string := genSplit s sep (-1).
Definition SplitN (s sep : string) (n : Z) : list string := genSplit s sep n.

(** [strings.Join(elems, sep)] *)
Fixpoint Join (elems : list string) (sep : string) : string :=
  match elems with
  | [] => ""
  | [e] => e
  | e :: rest => e +:+ sep +:+ Join rest sep
  end.

End Str.

(** ** UTF-8 as [fmt] counts it *)

Module utf8.

Definition between (lo hi : nat) (c : Ascii.ascii) : bool :=
  let b := Ascii.nat_of_ascii c in (lo <=? b) && (b <=? hi).

(** The entry of the table [first] for a leading byte: [None] for an ASCII
    or an invalid byte ([as], [xx]), else the size of the sequence and the
    range accepted for its second byte. *)
Definition first (c : Ascii.ascii) : option (nat * (nat * nat)) :=
  let b := Ascii.nat_of_ascii c in
  if b <? 194 then None
  else if b <=? 223 then Some (2, (128, 191))
  else if b =? 224 then Some (3, (160, 191))
  else if b <=? 236 then Some (3, (128, 191))
  else if b =? 237 then Some (3, (128, 159))
  else if b <=? 239 then Some (3, (128, 191))
  else if b =? 240 then Some (4, (144, 191))
  else if b <=? 243 then Some (4, (128, 191))
  else if b =? 244 then Some (4, (128, 143))
  else None.

(** The width [utf8.DecodeRuneInString(s)] returns: 0 on the empty string,
    1 on an ASCII byte and on a byte that starts no valid sequence. *)
Definition DecodeRuneSize (s : string) : nat :=
  match s with
  | "" => 0
  | String c0 s1 =>
      match first c0 with
      | None => 1
      | Some (sz, (lo, hi)) =>
          if String.length s <? sz then 1
          else match s1 with
               | "" => 1
               | String c1 s2 =>
                   if negb (between lo hi c1) then 1
                   else if sz <=? 2 then 2
                   else match s2 with
                        | "" => 1
                        | String c2 s3 =>
                            if negb (between 128 191 c2) then 1
                            else if sz <=? 3 then 3
                            else match s3 with
                                 | "" => 1
                                 | String c3 _ =>
                                     if negb (between 128 191 c3) then 1 else 4
                                 end
                        end
               end
      end
  end.

(** [utf8.RuneCountInString(s)]; a rune takes at least one byte, so
    [length s] rounds read the whole string. *)
Fixpoint RuneCount_loop (fuel : nat) (s : string) : nat :=
  match fuel, s with
  | S fuel', String _ _ => S (RuneCount_loop fuel' (Str.drop (DecodeRuneSize s) s))
  | _, _ => 0
  end.

Definition RuneCountInString (s : string) : nat := RuneCount_loop (String.length s) s.

(** The first [n] runes of [s]: what [for i := range s] has passed when
    [fmt.truncateString] cuts at [s[:i]]. *)
Fixpoint take_runes (fuel n : nat) (s : string) : string :=
  match fuel, n, s with
  | S fuel', S n', String _ _ =>
      let k := DecodeRuneSize s in
      Str.take k s +:+ take_runes fuel' n' (Str.drop k s)
  | _, _, _ => ""
  end.

End utf8.

(** ** The verbs of [fmt] the program uses *)

Module fmt.

Definition LF : string := String (Ascii.ascii_of_nat 10) "".

(** [%d] *)
Definition verb_d (n : Z) : string := NilZero.string_of_int (Z.to_int n).

(** [fmt.truncateString] with precision [prec] *)
Definition truncateString (prec : nat) (s : string) : string :=
  utf8.take_runes (String.length s) prec s.

(** [fmt.padString] with the minus flag: pad on the right up to [wid] runes. *)
Definition padString_minus (wid : nat) (s : string) : string :=
  s +:+ Str.spaces (wid - utf8.RuneCountInString s).

(** [%-10s] and [%-40.40s] *)
Definition verb_s_minus (wid : nat) (prec : option nat) (s : string) : string :=
  padString_minus wid (match prec with Some p => truncateString p s | None => s end).

End fmt.

(** ** Package [tcolor] *)

Module tcolor.

Definition Color := Z.

Definition Red : Color := 1%Z.
Definition Green : Color := 2%Z.
Definition Gray : Color := 8%Z.

Definition ESC : string := String (Ascii.ascii_of_nat 27) "".

(** [fmt.Sprintf("\033[38;5;%dm%s\033[0m", c, s)] *)
Definition Foreground (c : Color) (s : string) : string :=
  ESC +:+ "[38;5;" +:+ fmt.verb_d c +:+ "m" +:+ s +:+ ESC +:+ "[0m".

(** [fmt.Sprintf("\033[1m%s\033[0m", s)] *)
Definition Bold (s : string) : string := ESC +:+ "[1m" +:+ s +:+ ESC +:+ "[0m".

End tcolor.

(** ** Errors and panics *)

Unset Elimination Schemes.
Inductive error : Type :=
| Foreign (msg : string)
    (** an error made outside this program: [os], [os/exec], [bufio] *)
| Errorf_w (prefix : string) (cause : error)
    (** [fmt.Errorf(prefix + ": %w", cause)] *)
| Errorf_format (got : nat)
    (** [fmt.Errorf("data format incorrect, expected 5 parts, got %d", got)] *)
| joinError (errs : list error).
    (** the value of [errors.Join] when some argument is not [nil] *)
Set Elimination Schemes.

(** The method [Error()]. *)
Fixpoint Error (e : error) : string :=
  match e with
  | Foreign msg => msg
  | Errorf_w prefix cause => prefix +:+ ": " +:+ Error cause
  | Errorf_format got =>
      "data format incorrect, expected 5 parts, got " +:+ fmt.verb_d (Z.of_nat got)
  | joinError errs => Str.Join (map Error errs) fmt.LF
  end.

(** [errors.Join(errs...)]: [nil] arguments are dropped, and the result is
    [nil] when nothing is left. *)
Definition errors_Join (errs : list (option error)) : option error :=
  match omap id errs with
  | [] => None
  | es => Some (joinError es)
  end.

Inductive panic : Type :=
| PanicError (e : error)
    (** [panic(err)] *)
| IndexOutOfRange (i len : nat).
    (** runtime error: index out of range [[i]] with length [len] *)

(** [a[i]] on a slice of strings *)
Definition index (a : list string) (i : nat) : panic + string :=
  match a !! i with
  | Some x => inr x
  | None => inl (IndexOutOfRange i (length a))
  end.

(** ** The process and its surroundings *)

(** The read end of a stream as a [bufio.Scanner] sees it: the tokens
    [Scan] yields, then what [Err] reports. *)
Record Scanner : Type := {
  tokens : list string;
  scan_err : option error;
}.

(** What the process does that can be seen from outside, in order. *)
Inductive event : Type :=
| Stdout (text : string)
    (** [fmt.Print*]: bytes written to [os.Stdout] *)
| CmdOutput (argv : list string)
    (** [cmd.Output()]: the command is run to its end *)
| CmdStdoutPipe (argv : list string)
| CmdStart (argv : list string)
| CmdRun (argv : list string)
    (** [cmd.Run()]: [Start] then [Wait] *)
| CmdWait (argv : list string)
| OsPipe
| OsGetwd
| OsExecutable
| Go (curDir : string) (input : Scanner)
    (** the [go func()] of [atuinAdapt], with the [curDir] it captures *)
| StdoutClose
    (** the deferred [atuin.stdout.Close()] *)
| LogFatal (e : error).
    (** [log.Fatal(err)]: the message goes to standard error *)

(** What the surroundings answer.  The answers are fixed for one execution;
    the program decides which of them it asks for. *)
Record Env : Type := {
  (** [os.Getwd()] *)
  env_Getwd : string * option error;
  (** [os.Executable()] *)
  env_Executable : string * option error;
  (** [os.Pipe()] *)
  env_Pipe : option error;
  (** [cmd.StdoutPipe()], [cmd.Start()], [cmd.Run()] and [cmd.Wait()] of the
      command with this argv *)
  env_StdoutPipe : list string → option error;
  env_Start : list string → option error;
  env_Run : list string → option error;
  env_Wait : list string → option error;
  (** [cmd.Output()] of the command with this argv: the error, or the
      tokens a [bufio.Scanner] reads from the captured output *)
  env_Output : list string → error + list string;
}.

(** State passing over the trace of events. *)
Definition IO (A : Type) : Type := list event → A * list event.

Global Instance IO_ret : MRet IO := λ A a t, (a, t).
Global Instance IO_bind : MBind IO := λ A B k m t, let '(a, t') := m t in k a t'.

Definition emit (e : event) : IO unit := λ t, (tt, t ++ [e]).

(** [fmt.Println(s)] and [fmt.Println()] on standard output *)
Definition Println (s : string) : IO unit := emit (Stdout (s +:+ fmt.LF)).

(** The trace of a whole run, and what it wrote to standard output. *)
Definition exec {A} (m : IO A) : A * list event := m [].

Definition stdout_of (t : list event) : list string :=
  omap (λ e, match e with Stdout s => Some s | _ => None end) t.

(** ** [main.go] *)

Definition _delim : string := ":::".

Definition TAB : string := String (Ascii.ascii_of_nat 9) "".

Definition rule : string := "───────────────────────────────────────────────────".

(** *** [atuinAdapt] *)

(** The write end of the pipe.  [open_for] is the environment's part: how
    many more writes complete before the reader has closed its end ([None]:
    the reader reads to the end). *)
Record PipeWriter : Type := {
  written : list string;
  open_for : option nat;
  close_err : option error;
  closed : bool;
}.

Definition EPIPE : error := Foreign "write |1: broken pipe".

(** [fmt.Fprintln(w, s)]: one [Write] of [s] and a newline. *)
Definition Fprintln (w : PipeWriter) (s : string) : PipeWriter * option error :=
  match open_for w with
  | None =>
      ({| written := written w ++ [s +:+ fmt.LF]; open_for := None;
          close_err := close_err w; closed := closed w |}, None)
  | Some (S k) =>
      ({| written := written w ++ [s +:+ fmt.LF]; open_for := Some k;
          close_err := close_err w; closed := closed w |}, None)
  | Some 0 => (w, Some EPIPE)
  end.

(** [w.Close()] *)
Definition Close (w : PipeWriter) : PipeWriter * option error :=
  ({| written := written w; open_for := open_for w;
      close_err := close_err w; closed := true |}, close_err w).

(** Lines 105-108: the exit marker. *)
Definition exitStatus (exitCode : string) : string :=
  if decide (exitCode ≠ "0") then tcolor.Foreground tcolor.Red ("exit " +:+ exitCode)
  else " ".

(** Lines 110-113: the directory annotation. *)
Definition dirCtx (curDir directory : string) : string :=
  if decide (directory = curDir) then " " +:+ tcolor.ESC +:+ "[38;5;242m(current dir)" +:+ tcolor.ESC +:+ "[0m"
  else "".

(** Lines 102-123: the body of the loop up to the argument of [Fprintln].
    The five index expressions are evaluated from left to right. *)
Definition adaptLine (curDir line : string) : panic + string :=
  let parts := Str.Split line _delim in
  match index parts 0 with inl p => inl p | inr command =>
  match index parts 1 with inl p => inl p | inr exitCode =>
  match index parts 2 with inl p => inl p | inr directory =>
  match index parts 3 with inl p => inl p | inr duration =>
  match index parts 4 with inl p => inl p | inr timestamp =>
    inr (Str.Join [command; exitCode; directory; duration; timestamp;
                   exitStatus exitCode; dirCtx curDir directory] _delim)
  end end end end end.

(** Lines 101-127: [for scanner.Scan() { ... }].  The result is the panic
    that ended the loop, if any, with the tokens not yet read and the pipe. *)
Fixpoint scanLoop (curDir : string) (toks : list string) (w : PipeWriter)
  : option panic * list string * PipeWriter :=
  match toks with
  | [] => (None, [], w)
  | line :: rest =>
      match adaptLine curDir line with
      | inl p => (Some p, rest, w)
      | inr out =>
          match Fprintln w out with
          | (w', Some err) => (Some (PanicError err), rest, w')
          | (w', None) => scanLoop curDir rest w'
          end
      end
  end.

Inductive outcome : Type :=
| Returned
| Panicked (p : panic).

(** Lines 99-136: the goroutine. *)
Definition atuinAdapt_go (curDir : string) (input : Scanner) (w : PipeWriter)
  : outcome * list string * PipeWriter :=
  match scanLoop curDir (tokens input) w with
  | (Some p, rest, w1) => (Panicked p, rest, w1)
  | (None, rest, w1) =>
      match scan_err input with
      | Some err => (Panicked (PanicError err), rest, w1)
      | None =>
          match Close w1 with
          | (w2, Some err) => (Panicked (PanicError err), rest, w2)
          | (w2, None) => (Returned, rest, w2)
          end
      end
  end.

(** *** [altuinSearch], [atuinAdapt], [fzf] and [run] *)

(** [cmdOutput]: the command and the read end of its standard output. *)
Record cmdOutput : Type := {
  cmd : list string;
  stdout : Scanner;
}.

(** The read end of the pipe [atuinAdapt] returns. *)
Inductive PipeReader : Type := pipe_r.

Section program.

Context (env : Env).
(** What the backend started by [altuinSearch] writes to its standard output. *)
Context (backend : Scanner).

Definition altuinSearch : IO (error + cmdOutput) :=
  let atuinFmt :=
    Str.Join ["{command}"; "{exit}"; "{directory}"; "{duration}"; "{time}"] _delim in
  let cmd := ["atuin"; "search"; "--limit"; "1000"; "--format"; atuinFmt] in
  emit (CmdStdoutPipe cmd);;
  match env_StdoutPipe env cmd with
  | Some err => mret (inl (Errorf_w "atuin stdout" err))
  | None =>
      emit (CmdStart cmd);;
      match env_Start env cmd with
      | Some err => mret (inl (Errorf_w "start atuin" err))
      | None => mret (inr {| cmd := cmd; stdout := backend |})
      end
  end.

Definition atuinAdapt (input : Scanner) : IO (error + PipeReader) :=
  emit OsPipe;;
  match env_Pipe env with
  | Some err => mret (inl err)
  | None =>
      emit OsGetwd;;
      let curDir := (env_Getwd env).1 in
      emit (Go curDir input);;
      mret (inr pipe_r)
  end.

Definition fzf (input : PipeReader) (query : string) : IO (option error) :=
  emit OsExecutable;;
  match env_Executable env with
  | (_, Some err) => mret (Some (Errorf_w "self executable" err))
  | (selfExe, None) =>
      let previewFmt := Str.Join ["{1}"; "{2}"; "{3}"; "{4}"; "{5}"; "{6}"] _delim in
      let previewCmd := selfExe +:+ " --preview " +:+ previewFmt +:+ " " in
      let fzfCmd :=
        ["fzf";
         "--tac";
         "--ansi";
         "--scheme"; "history";
         "--prompt"; "> ";
         "--header"; "[Enter] to select, [Ctrl-Y] to yank.";
         "--preview"; previewCmd;
         "--preview-window"; "right:40%:wrap";
         "--delimiter"; _delim;
         "--with-nth"; "{1}  {6} {7}";
         "--accept-nth"; "{1}";
         "--bind"; "ctrl-y:execute-silent(echo -n {1} | pbcopy)+abort";
         "--query"; query;
         "--height"; "80%"] in
      emit (CmdRun fzfCmd);;
      match env_Run env fzfCmd with
      | Some err => mret (Some (Errorf_w "run fzf" err))
      | None => mret None
      end
  end.

(** Lines 52-65 of [run]: what runs between the [defer] and its effect. *)
Definition run_body (atuin : cmdOutput) (query : string) : IO (option error) :=
  a ← atuinAdapt (stdout atuin);
  match a with
  | inl err => mret (Some err)
  | inr fzfInput =>
      e ← fzf fzfInput query;
      match e with
      | Some err => mret (Some err)
      | None =>
          emit (CmdWait (cmd atuin));;
          match env_Wait env (cmd atuin) with
          | Some err => mret (Some err)
          | None => mret None
          end
      end
  end.

Definition run (query : string) : IO (option error) :=
  r ← altuinSearch;
  match r with
  | inl err => mret (Some err)
  | inr atuin =>
      res ← run_body atuin query;
      emit StdoutClose;;
      mret res
  end.

(** *** [fzfPreview] *)

(** Lines 215-224: the loop of [printResults] over the scanned lines, with
    the map [seen] of the enclosing function passed in and out. *)
Fixpoint printLines (seen : gmap string bool) (lines : list string)
  : IO (gmap string bool) :=
  match lines with
  | [] => mret seen
  | line :: rest =>
      if negb (default false (seen !! line)) then
        let seen := <[line := true]> seen in
        let parts := Str.SplitN line TAB 2 in
        (if decide (length parts = 2)
         then emit (Stdout (fmt.verb_s_minus 40 (Some 40) (parts !!! 0) +:+ " ("
                            +:+ (parts !!! 1) +:+ ")" +:+ fmt.LF))
         else mret tt);;
        printLines seen rest
      else printLines seen rest
  end.

(** Lines 209-226: the closure [printResults]. *)
Definition printResults (seen : gmap string bool) (cmd : list string)
  : IO (gmap string bool * option error) :=
  emit (CmdOutput cmd);;
  match env_Output env cmd with
  | inl err => mret (seen, Some err)
  | inr lines => seen' ← printLines seen lines; mret (seen', None)
  end.

Definition globalSearch (command : string) : list string :=
  ["atuin"; "search"; "--limit"; "5"; "--search-mode"; "prefix";
   "--format"; "{command}" +:+ TAB +:+ "{directory}"; command].

Definition dirSearch (command directory : string) : list string :=
  ["atuin"; "search"; "--limit"; "5"; "--search-mode"; "prefix";
   "--cwd"; directory; "--format"; "{command}" +:+ TAB +:+ "{directory}"; command].

(** Lines 185-202: the part of the report that needs no query. *)
Definition printHeader (command exitCode directory duration timestamp : string) : IO unit :=
  let exitCol := if decide (exitCode ≠ "0") then tcolor.Red else tcolor.Green in
  Println (tcolor.Bold "Full Command");;
  Println rule;;
  Println command;;
  Println "";;
  Println (tcolor.Bold "Execution Details");;
  Println rule;;
  emit (Stdout (fmt.verb_s_minus 10 None "Status:" +:+ " "
                +:+ tcolor.Foreground exitCol exitCode +:+ fmt.LF));;
  emit (Stdout (fmt.verb_s_minus 10 None "Ran In:" +:+ " " +:+ directory +:+ fmt.LF));;
  emit (Stdout (fmt.verb_s_minus 10 None "Duration:" +:+ " " +:+ duration +:+ fmt.LF));;
  emit (Stdout (fmt.verb_s_minus 10 None "When:" +:+ " " +:+ timestamp +:+ fmt.LF));;
  Println "";;
  Println (tcolor.Bold "Recent Similar Commands");;
  Println rule.

Definition fzfPreview (data : string) : IO (option error) :=
  let parts := Str.Split data _delim in
  if decide (length parts < 5) then mret (Some (Errorf_format (length parts)))
  else
    let command := parts !!! 0 in
    let exitCode := parts !!! 1 in
    let directory := parts !!! 2 in
    let duration := parts !!! 3 in
    let timestamp := parts !!! 4 in
    printHeader command exitCode directory duration timestamp;;
    '(seen, err1) ← printResults ∅ (globalSearch command);
    '(_, err2) ← printResults seen (dirSearch command directory);
    mret (errors_Join [err1; err2]).

(** *** [main] *)

(** [main] with [os.Args]; the result is the exit status of the process:
    1 after [log.Fatal], 0 when [main] returns. *)
Definition main (Args : list string) : IO Z :=
  if bool_decide (1 < length Args) && bool_decide (Args !!! 1 = "--preview") then
    if decide (2 < length Args) then
      err ← fzfPreview (Args !!! 2);
      match err with
      | Some e => emit (LogFatal e);; mret 1%Z
      | None => mret 0%Z
      end
    else mret 0%Z
  else
    let initialQuery := if decide (1 < length Args) then Args !!! 1 else "" in
    err ← run initialQuery;
    match err with
    | Some e => emit (LogFatal e);; mret 1%Z
    | None => mret 0%Z
    end.

End program.

(** ** Vocabulary of the statements *)

(** A line the loop of [atuinAdapt] can index: [Split] gives it at least
    five parts; exactly five for a record of the backend's format. *)
Definition indexable (line : string) : Prop := 5 ≤ length (Str.Split line _delim).

Definition fiveFields (line : string) : Prop := length (Str.Split line _delim) = 5.

(** The field [f] ends where a separator is put after it: the first
    separator of [f +:+ sep] is the one appended, so [f] holds none and none
    begins in [f] and runs over its end. *)
Definition closes (sep f : string) : Prop :=
  Str.Index (f +:+ sep) sep = Some (String.length f).

(** What one round of the loop writes for [line], newline included. *)
Definition enriched (curDir line : string) : string :=
  match adaptLine curDir line with
  | inr out => out +:+ fmt.LF
  | inl _ => ""
  end.

(** The reader keeps its end open for [n] more writes. *)
Definition accepts (w : PipeWriter) (n : nat) : Prop :=
  match open_for w with
  | None => True
  | Some k => n ≤ k
  end.

(** The pipe after the writes [outs] have completed. *)
Definition after_writes (w : PipeWriter) (outs : list string) : PipeWriter :=
  {| written := written w ++ outs;
     open_for := (λ k, k - length outs) <$> open_for w;
     close_err := close_err w;
     closed := closed w |}.

(** A pipe nothing has been written to. *)
Definition fresh_pipe (reader : option nat) (on_close : option error) : PipeWriter :=
  {| written := []; open_for := reader; close_err := on_close; closed := false |}.

(** A computation that only adds to the trace; all of the program is of
    this kind. *)
Definition appends {A} (m : IO A) : Prop :=
  ∀ t, m t = ((m []).1, t ++ (m []).2).

(** The commands run with [cmd.Output()], in order. *)
Definition commands_of (t : list event) : list (list string) :=
  omap (λ e, match e with CmdOutput argv => Some argv | _ => None end) t.

(** An answer of [cmd.Output()]: its error and its lines. *)
Definition result_err (r : error + list string) : option error :=
  match r with inl err => Some err | inr _ => None end.

Definition result_lines (r : error + list string) : list string :=
  match r with inl _ => [] | inr lines => lines end.

(** [seen[line]] *)
Definition is_seen (seen : gmap string bool) (line : string) : bool :=
  default false (seen !! line).

(** Lines 219-222: what the loop of [printResults] prints for a line that
    was not seen before; nothing when the line has no tab. *)
Definition relatedLine (line : string) : option string :=
  let parts := Str.SplitN line TAB 2 in
  if decide (length parts = 2)
  then Some (fmt.verb_s_minus 40 (Some 40) (parts !!! 0) +:+ " ("
             +:+ (parts !!! 1) +:+ ")" +:+ fmt.LF)
  else None.

(** The lines of [lines] that pass the test [!seen[line]] of the loop, and
    the map the loop leaves. *)
Fixpoint unseen (seen : gmap string bool) (lines : list string) : list string :=
  match lines with
  | [] => []
  | line :: rest =>
      if negb (is_seen seen line) then line :: unseen (<[line := true]> seen) rest
      else unseen seen rest
  end.

Fixpoint mark (seen : gmap string bool) (lines : list string) : gmap string bool :=
  match lines with
  | [] => seen
  | line :: rest =>
      if negb (is_seen seen line) then mark (<[line := true]> seen) rest
      else mark seen rest
  end.

(** In the words of the specification: the merge of two result lists keeps
    of every line its first occurrence, in the order of the first list
    followed by the second. *)
Fixpoint first_seen (l : list string) : list string :=
  match l with
  | [] => []
  | x :: l' => x :: filter (λ y, y ≠ x) (first_seen l')
  end.

Definition merged (a b : list string) : list string := first_seen (a ++ b).

(** The steps of the pipeline controller, and the call that opens each. *)
Inductive step : Type := BackendLaunch | AdapterAttach | SelectorRun | BackendAwait.

Definition step_of (e : event) : option step :=
  match e with
  | CmdStdoutPipe _ => Some BackendLaunch
  | OsPipe => Some AdapterAttach
  | OsExecutable => Some SelectorRun
  | CmdWait _ => Some BackendAwait
  | _ => None
  end.

Definition steps_of (t : list event) : list step := omap step_of t.

Definition the_steps : list step :=
  [BackendLaunch; AdapterAttach; SelectorRun; BackendAwait].

(** ** A worked execution *)

(** Three records of the backend, the second with a non-zero exit code and
    the first run in the working directory. *)
Definition example_lines : list string :=
  ["ls -l:::0:::/home/u:::1s:::2h ago";
   "make:::2:::/src:::3s:::1h ago";
   "pwd:::0:::/tmp:::0s:::5m ago"].

Definition example_input : Scanner := {| tokens := example_lines; scan_err := None |}.

(** The same with a line of three parts in the middle. *)
Definition example_short : Scanner :=
  {| tokens := ["ls -l:::0:::/home/u:::1s:::2h ago"; "cmd:::1:::dir";
                "pwd:::0:::/tmp:::0s:::5m ago"];
     scan_err := None |}.

(** Surroundings in which every call succeeds and the two queries of the
    preview give the answers [global] and [scoped]. *)
Definition example_env (global scoped : error + list string) : Env :=
  {| env_Getwd := ("/home/u", None);
     env_Executable := ("/usr/local/bin/atuin-fzf", None);
     env_Pipe := None;
     env_StdoutPipe := λ _, None;
     env_Start := λ _, None;
     env_Run := λ _, None;
     env_Wait := λ _, None;
     env_Output := λ argv, if bool_decide ("--cwd" ∈ argv) then scoped else global |}.

Definition example_global : list string :=
  ["a" +:+ TAB +:+ "/x"; "b" +:+ TAB +:+ "/y"].

Definition example_scoped : list string :=
  ["b" +:+ TAB +:+ "/y"; "c" +:+ TAB +:+ "/z"].

Definition example_data : string := "a:::0:::/home/u:::1s:::2h ago".

Definition example_env_both : Env := example_env (inr example_global) (inr example_scoped).

Definition example_env_one : Env :=
  example_env (inl (Foreign "exit status 1")) (inr example_scoped).


Definition fatals_of (t : list event) : list error :=
  omap (λ e, match e with LogFatal err => Some err | _ => None end) t.

(** A scanner that ends with an error, a pipe that cannot be closed, and a
    record whose command holds the delimiter. *)
Definition example_failing : Scanner :=
  {| tokens := example_lines; scan_err := Some (Foreign "read |0: file already closed") |}.

Definition example_long : string := "echo a:::b:::0:::/home/u:::1s:::2h ago".

(** A string of bytes below 128. *)
Fixpoint ascii_only (s : string) : bool :=
  match s with
  | "" => true
  | String c s' => (Ascii.nat_of_ascii c <? 128) && ascii_only s'
  end.

(** The byte of which the delimiter is made, and: no delimiter begins in
    [s] before the place [n]. *)
Definition colon : Ascii.ascii := Ascii.ascii_of_nat 58.

Definition free_before (n : nat) (s : string) : Prop :=
  ∀ k, k < n → Str.HasPrefix (Str.drop k s) _delim = false.

Fixpoint no_colon (s : string) : bool :=
  match s with
  | "" => true
  | String c s' => negb (bool_decide (c = colon)) && no_colon s'
  end.

(** A pipe whose write end cannot be closed, and answers of the queries
    with no line in common, or with the same lines. *)
Definition example_unclosable : PipeWriter :=
  fresh_pipe None (Some (Foreign "close |1: file already closed")).

Definition example_env_disjoint : Env :=
  example_env (inr example_global) (inr ["c" +:+ TAB +:+ "/z"]).

Definition example_env_same : Env :=
  example_env (inr example_global) (inr example_global).

Definition example_row : string := "git status" +:+ TAB +:+ "/home/u".

(** * Properties *)

(** ** Strings *)

Section strings.

Implicit Types s t sep : string.

#[local] Arguments String.append !_ _ : simpl nomatch.

Lemma str_app_nil_r s : s +:+ "" = s.
Proof. induction s as [|c s IH]; simpl; [done | by rewrite IH]. Qed.

Lemma str_app_assoc s t u : (s +:+ t) +:+ u = s +:+ (t +:+ u).
Proof. induction s as [|c s IH]; simpl; [done | by rewrite IH]. Qed.

Lemma str_length_app s t : String.length (s +:+ t) = String.length s + String.length t.
Proof. induction s as [|c s IH]; simpl; [done | by rewrite IH]. Qed.


Lemma str_drop_add n m s : Str.drop (n + m) s = Str.drop m (Str.drop n s).
Proof.
  revert s; induction n as [|n IH]; intros [|c s]; simpl; try done.
  by destruct m.
Qed.

Lemma str_length_drop n s : String.length (Str.drop n s) = String.length s - n.
Proof.
  revert s; induction n as [|n IH]; intros [|c s]; simpl; try done.
Qed.

Lemma str_drop_app_length s t : Str.drop (String.length s) (s +:+ t) = t.
Proof. induction s as [|c s IH]; simpl; [by destruct t | done]. Qed.

Lemma str_take_app_length s t : Str.take (String.length s) (s +:+ t) = s.
Proof. induction s as [|c s IH]; simpl; [by destruct t | by rewrite IH]. Qed.

Lemma HasPrefix_app s t : Str.HasPrefix (s +:+ t) s = true.
Proof. induction s as [|c s IH]; simpl; [done | by rewrite decide_True]. Qed.

Lemma HasPrefix_inv s p : Str.HasPrefix s p = true → s = p +:+ Str.drop (String.length p) s.
Proof.
  revert s; induction p as [|a p IH]; intros [|b s]; simpl; try done.
  case_decide; [|done]. intros Hp%IH. by subst; f_equal.
Qed.

(** [Index] finds an occurrence. *)
Lemma Index_Some s sep m :
  Str.Index s sep = Some m →
  s = Str.take m s +:+ sep +:+ Str.drop (m + String.length sep) s.
Proof.
  revert m; induction s as [|c s IH]; intros m; simpl.
  - destruct (Str.HasPrefix "" sep) eqn:E; [|done].
    intros [= <-]. by apply HasPrefix_inv in E.
  - destruct (Str.HasPrefix (String c s) sep) eqn:E.
    + intros [= <-]. by apply HasPrefix_inv in E.
    + destruct (Str.Index s sep) as [k|] eqn:Ek; [|done].
      intros [= <-]. simpl. f_equal. by apply IH.
Qed.

Lemma str_length_take n s : String.length (Str.take n s) = n `min` String.length s.
Proof.
  revert s; induction n as [|n IH]; intros [|c s]; simpl; try done.
  by rewrite IH.
Qed.

Lemma Index_le s sep m : Str.Index s sep = Some m → m ≤ String.length s.
Proof.
  revert m; induction s as [|c s IH]; intros m; simpl.
  - destruct (Str.HasPrefix "" sep); [|done]. intros [= <-]; lia.
  - destruct (Str.HasPrefix (String c s) sep); [intros [= <-]; lia|].
    destruct (Str.Index s sep) as [k|] eqn:Ek; [|done].
    intros [= <-]. specialize (IH k eq_refl). lia.
Qed.

Lemma Index_bound s sep m :
  Str.Index s sep = Some m → m + String.length sep ≤ String.length s.
Proof.
  intros H. pose proof (Index_le _ _ _ H) as Hle. apply Index_Some in H.
  assert (String.length s
          = String.length (Str.take m s +:+ sep +:+ Str.drop (m + String.length sep) s))
    as Hl by (by rewrite <-H).
  rewrite !str_length_app, str_length_drop, str_length_take in Hl. lia.
Qed.

(** [Index] returns the first occurrence: none starts further to the left. *)
Lemma Index_first s sep m k :
  Str.Index s sep = Some m → k < m → Str.HasPrefix (Str.drop k s) sep = false.
Proof.
  revert m k; induction s as [|c s IH]; intros m k; simpl.
  - destruct (Str.HasPrefix "" sep); [intros [= <-]; lia | done].
  - destruct (Str.HasPrefix (String c s) sep) eqn:E; [intros [= <-]; lia|].
    destruct (Str.Index s sep) as [j|] eqn:Ej; [|done].
    intros [= <-] Hk. destruct k as [|k]; simpl; [done|].
    eapply IH; [done | lia].
Qed.

Lemma Index_None s sep k :
  Str.Index s sep = None → Str.HasPrefix (Str.drop k s) sep = false.
Proof.
  revert k; induction s as [|c s IH]; intros k; simpl.
  - destruct (Str.HasPrefix "" sep) eqn:E; [done|]. by destruct k.
  - destruct (Str.HasPrefix (String c s) sep) eqn:E; [done|].
    destruct (Str.Index s sep) as [j|] eqn:Ej; [done|].
    intros _. destruct k as [|k]; simpl; [done|]. by apply IH.
Qed.

Lemma Index_None_intro s sep :
  (∀ k, Str.HasPrefix (Str.drop k s) sep = false) → Str.Index s sep = None.
Proof.
  induction s as [|c s IH]; intros H; pose proof (H 0) as H0; simpl in *.
  - by rewrite H0.
  - rewrite H0, IH; [done|]. intros k. apply (H (S k)).
Qed.

Lemma HasPrefix_nil sep : sep ≠ "" → Str.HasPrefix "" sep = false.
Proof. by destruct sep. Qed.

Lemma Index_nil sep : sep ≠ "" → Str.Index "" sep = None.
Proof. intros H. simpl. by rewrite HasPrefix_nil. Qed.

Lemma string_length_ind (P : string → Prop) :
  (∀ s, (∀ t, String.length t < String.length s → P t) → P s) → ∀ s, P s.
Proof.
  intros step s. remember (String.length s) as n eqn:Hn.
  revert s Hn. induction (lt_wf n) as [n _ IH]. intros s ->.
  apply step. intros t Ht. by apply (IH (String.length t)).
Qed.

(** What is left after a separator is shorter than the string. *)
Lemma Index_drop_lt s sep m :
  sep ≠ "" → Str.Index s sep = Some m →
  String.length (Str.drop (m + String.length sep) s) < String.length s.
Proof.
  intros Hsep H%Index_bound. rewrite str_length_drop.
  destruct sep; [done|]. simpl in *. lia.
Qed.

(** The rounds of [Count] are bounded by the length of the string. *)
Lemma Count_loop_fuel sep : sep ≠ "" →
  ∀ f1 f2 s, String.length s ≤ f1 → String.length s ≤ f2 →
  Str.Count_loop f1 s sep = Str.Count_loop f2 s sep.
Proof.
  intros Hsep. induction f1 as [|f1 IH]; intros f2 s H1 H2.
  - destruct s; [|simpl in H1; lia]. destruct f2; simpl; [done|].
    by rewrite HasPrefix_nil.
  - destruct f2 as [|f2].
    + destruct s; [|simpl in H2; lia]. simpl. by rewrite HasPrefix_nil.
    + cbn [Str.Count_loop]. destruct (Str.Index s sep) as [i|] eqn:Ei; [|done].
      pose proof (Index_drop_lt _ _ _ Hsep Ei). f_equal. apply IH; lia.
Qed.

Lemma Count_step s sep : sep ≠ "" →
  Str.Count s sep =
    match Str.Index s sep with
    | None => 0
    | Some i => S (Str.Count (Str.drop (i + String.length sep) s) sep)
    end.
Proof.
  intros Hsep. unfold Str.Count. destruct s as [|c s].
  - by rewrite Index_nil.
  - cbn [String.length Str.Count_loop].
    destruct (Str.Index (String c s) sep) as [i|] eqn:Ei; [|done].
    pose proof (Index_drop_lt _ _ _ Hsep Ei) as Hlt. simpl in Hlt.
    f_equal. apply Count_loop_fuel; [done | lia | lia].
Qed.

Lemma Count_le s sep : sep ≠ "" → Str.Count s sep ≤ String.length s.
Proof.
  intros Hsep. induction s as [s IH] using string_length_ind.
  rewrite Count_step by done.
  destruct (Str.Index s sep) as [i|] eqn:Ei; [|lia].
  pose proof (Index_drop_lt _ _ _ Hsep Ei) as Hlt.
  specialize (IH _ Hlt). lia.
Qed.

(** [Split] runs the loop of [genSplit] once per separator. *)
Lemma Split_Count s sep : sep ≠ "" →
  Str.Split s sep = Str.genSplit_loop (Str.Count s sep) s sep.
Proof.
  intros Hsep. unfold Str.Split, Str.genSplit.
  pose proof (Count_le s sep Hsep).
  destruct (decide (-1 = 0)%Z); [lia|].
  destruct (decide (-1 < 0)%Z); [|lia].
  destruct (decide (_ > _)%Z); [lia|]. f_equal. lia.
Qed.

(** The equation of [Split]: cut at the leftmost separator and go on with
    what follows it. *)
Lemma Split_step s sep : sep ≠ "" →
  Str.Split s sep =
    match Str.Index s sep with
    | None => [s]
    | Some m => Str.take m s :: Str.Split (Str.drop (m + String.length sep) s) sep
    end.
Proof.
  intros Hsep. rewrite Split_Count, Count_step by done.
  destruct (Str.Index s sep) as [m|] eqn:Em.
  - cbn [Str.genSplit_loop]. rewrite Em. by rewrite Split_Count.
  - done.
Qed.

Lemma Split_not_nil s sep : sep ≠ "" → Str.Split s sep ≠ [].
Proof. intros Hsep. rewrite Split_step by done. by destruct (Str.Index s sep). Qed.

Lemma Join_cons e rest sep :
  rest ≠ [] → Str.Join (e :: rest) sep = e +:+ sep +:+ Str.Join rest sep.
Proof. by destruct rest. Qed.

(** [Join] undoes [Split]. *)
Lemma Join_Split s sep : sep ≠ "" → Str.Join (Str.Split s sep) sep = s.
Proof.
  intros Hsep. induction s as [s IH] using string_length_ind.
  rewrite Split_step by done.
  destruct (Str.Index s sep) as [m|] eqn:Em; [|done].
  rewrite Join_cons by (by apply Split_not_nil).
  rewrite IH by (by apply Index_drop_lt).
  symmetry. by apply Index_Some.
Qed.

Lemma HasPrefix_app_l s t p : Str.HasPrefix s p = true → Str.HasPrefix (s +:+ t) p = true.
Proof.
  intros H%HasPrefix_inv. rewrite H, str_app_assoc. apply HasPrefix_app.
Qed.


Lemma str_drop_ge n s : String.length s ≤ n → Str.drop n s = "".
Proof.
  revert s; induction n as [|n IH]; intros [|c s]; simpl; try done; try lia.
  intros. apply IH. lia.
Qed.


Lemma Index_Some_intro s sep m :
  m ≤ String.length s →
  Str.HasPrefix (Str.drop m s) sep = true →
  (∀ k, k < m → Str.HasPrefix (Str.drop k s) sep = false) →
  Str.Index s sep = Some m.
Proof.
  revert m; induction s as [|c s IH]; intros m Hm Hat Hbefore.
  - destruct m; [|simpl in Hm; lia]. simpl in *. by rewrite Hat.
  - destruct m as [|m].
    + simpl in Hat. simpl. by rewrite Hat.
    + pose proof (Hbefore 0 ltac:(lia)) as H0. simpl in H0, Hat, Hm.
      cbn [Str.Index]. rewrite H0, (IH m); [done | lia | done |].
      intros k Hk. apply (Hbefore (S k)). lia.
Qed.

Lemma str_drop_app_le k s t :
  k ≤ String.length s → Str.drop k (s +:+ t) = Str.drop k s +:+ t.
Proof.
  revert s; induction k as [|k IH]; intros [|c s] Hk; simpl in *; try done; try lia.
  apply IH. lia.
Qed.

(** Whether [p] begins a string is decided within the first [length p]
    bytes. *)
Lemma HasPrefix_app_inv s t p :
  String.length p ≤ String.length s →
  Str.HasPrefix (s +:+ t) p = Str.HasPrefix s p.
Proof.
  revert s; induction p as [|a p IH]; intros [|b s] Hlen; simpl in *; try done; try lia.
  case_decide; [|done]. apply IH. lia.
Qed.

(** A separator after a field that [closes] is the first of the line. *)
Lemma Index_closes f sep rest :
  closes sep f → Str.Index (f +:+ sep +:+ rest) sep = Some (String.length f).
Proof.
  unfold closes. intros Hf. rewrite <-str_app_assoc.
  apply Index_Some_intro.
  - rewrite !str_length_app. lia.
  - rewrite str_app_assoc, str_drop_app_length. apply HasPrefix_app.
  - intros k Hk. rewrite str_drop_app_le by (rewrite str_length_app; lia).
    rewrite HasPrefix_app_inv.
    + by apply (Index_first _ _ _ _ Hf).
    + rewrite str_length_drop, str_length_app. lia.
Qed.

(** [Split] undoes [Join] on fields that close, the last of which holds no
    separator. *)
Lemma Split_Join fields last sep :
  sep ≠ "" → Forall (closes sep) fields → Str.Index last sep = None →
  Str.Split (Str.Join (fields ++ [last]) sep) sep = fields ++ [last].
Proof.
  intros Hsep Hfields Hlast. induction Hfields as [|f fields Hf _ IH].
  - simpl. rewrite Split_step by done. by rewrite Hlast.
  - rewrite <-app_comm_cons, Join_cons by (by destruct fields).
    rewrite Split_step, Index_closes by done.
    rewrite str_take_app_length, str_drop_add, str_drop_app_length,
      str_drop_app_length.
    by rewrite IH.
Qed.

(** And only on those: what [Split] returns are fields that close. *)
Lemma Split_closes s sep fields last :
  sep ≠ "" → Str.Split s sep = fields ++ [last] →
  s = Str.Join (fields ++ [last]) sep
  ∧ Forall (closes sep) fields
  ∧ Str.Index last sep = None.
Proof.
  intros Hsep H. split; [by rewrite <-H, Join_Split|].
  revert s H. induction fields as [|f fields IH]; intros s H.
  - split; [constructor|]. rewrite Split_step in H by done.
    destruct (Str.Index s sep) as [m|] eqn:Em; [|by simplify_eq/=].
    injection H as _ H. by apply Split_not_nil in H.
  - rewrite Split_step in H by done.
    destruct (Str.Index s sep) as [m|] eqn:Em.
    2:{ injection H as _ H. by destruct fields. }
    rewrite <-app_comm_cons in H. injection H as Hf Hrest.
    destruct (IH _ Hrest) as [Hfields Hlast]. split; [|done].
    constructor; [|done]. unfold closes.
    pose proof (Index_le _ _ _ Em) as Hm.
    assert (String.length f = m) as Hlen.
    { rewrite <-Hf, str_length_take. lia. }
    apply Index_Some_intro.
    + rewrite str_length_app. lia.
    + rewrite str_drop_app_length. rewrite <-(str_app_nil_r sep) at 1.
      apply HasPrefix_app.
    + intros k Hk.
      destruct (Str.HasPrefix (Str.drop k (f +:+ sep)) sep) eqn:E; [|done].
      apply (HasPrefix_app_l _ (Str.drop (m + String.length sep) s)) in E.
      rewrite <-str_drop_app_le in E by (rewrite str_length_app; lia).
      rewrite str_app_assoc, <-Hf, <-(Index_Some _ _ _ Em) in E.
      rewrite (Index_first _ _ _ _ Em) in E; [done | lia].
Qed.

Lemma Index_unfold s sep :
  Str.Index s sep =
    if Str.HasPrefix s sep then Some 0
    else match s with
         | "" => None
         | String _ s' => S <$> Str.Index s' sep
         end.
Proof. by destruct s. Qed.

(** A string that is written out around [sep] contains it. *)
Lemma Contains_app s sep t : Str.Contains (s +:+ sep +:+ t) sep = true.
Proof.
  unfold Str.Contains. apply bool_decide_eq_true.
  induction s as [|c s IH].
  - change ("" +:+ sep +:+ t) with (sep +:+ t).
    rewrite Index_unfold, HasPrefix_app. by eexists.
  - change (String c s +:+ sep +:+ t) with (String c (s +:+ sep +:+ t)).
    rewrite Index_unfold. destruct (Str.HasPrefix _ sep); [by eexists|].
    by apply fmap_is_Some.
Qed.


End strings.

(** ** The loop of [atuinAdapt] *)

Section adapter.

Implicit Types curDir line : string.
Implicit Types w : PipeWriter.

Lemma delim_not_nil : _delim ≠ "".
Proof. done. Qed.

(** On a line with five parts or more the body of the loop reaches the
    write, with the first five parts and the two derived fields. *)
Lemma adaptLine_parts curDir line f0 f1 f2 f3 f4 more :
  Str.Split line _delim = f0 :: f1 :: f2 :: f3 :: f4 :: more →
  adaptLine curDir line =
    inr (Str.Join [f0; f1; f2; f3; f4; exitStatus f1; dirCtx curDir f2] _delim).
Proof. intros H. unfold adaptLine. by rewrite H. Qed.

Lemma indexable_parts line :
  indexable line →
  ∃ f0 f1 f2 f3 f4 more, Str.Split line _delim = f0 :: f1 :: f2 :: f3 :: f4 :: more.
Proof.
  unfold indexable. intros H.
  destruct (Str.Split line _delim) as [|f0 [|f1 [|f2 [|f3 [|f4 more]]]]];
    simpl in H; try lia.
  by eexists _, _, _, _, _, _.
Qed.

Lemma adaptLine_ok curDir line :
  indexable line →
  ∃ out, adaptLine curDir line = inr out ∧ enriched curDir line = out +:+ fmt.LF.
Proof.
  intros (f0 & f1 & f2 & f3 & f4 & more & H)%indexable_parts.
  unfold enriched. rewrite (adaptLine_parts _ _ _ _ _ _ _ _ H). eauto.
Qed.

(** On a line with fewer than five parts the first index expression out of
    range panics. *)
Lemma adaptLine_short curDir line :
  length (Str.Split line _delim) < 5 →
  adaptLine curDir line =
    inl (IndexOutOfRange (length (Str.Split line _delim)) (length (Str.Split line _delim))).
Proof.
  unfold adaptLine. intros H.
  destruct (Str.Split line _delim) as [|f0 [|f1 [|f2 [|f3 [|f4 more]]]]];
    simpl in H; try lia; reflexivity.
Qed.

Lemma Fprintln_ok w s :
  accepts w 1 → Fprintln w s = (after_writes w [s +:+ fmt.LF], None).
Proof.
  unfold accepts, Fprintln, after_writes. destruct w as [wr [[|k]|] ce cl]; simpl;
    intros H; try lia; repeat f_equal; lia.
Qed.

Lemma Fprintln_closed w s :
  open_for w = Some 0 → Fprintln w s = (w, Some EPIPE).
Proof. unfold Fprintln. by intros ->. Qed.

Lemma after_writes_app w outs1 outs2 :
  after_writes (after_writes w outs1) outs2 = after_writes w (outs1 ++ outs2).
Proof.
  unfold after_writes. destruct w as [wr o ce cl]; simpl. f_equal.
  - by rewrite <-(assoc_L (++)).
  - destruct o; simpl; [|done]. rewrite length_app. f_equal. lia.
Qed.

Lemma after_writes_nil w : after_writes w [] = w.
Proof.
  unfold after_writes. destruct w as [wr o ce cl]; simpl. f_equal.
  - by rewrite (right_id_L [] (++)).
  - destruct o; simpl; [|done]. f_equal. lia.
Qed.

Lemma accepts_after w outs n :
  accepts w (length outs + n) → accepts (after_writes w outs) n.
Proof.
  unfold accepts, after_writes. destruct w as [wr [k|] ce cl]; simpl; [lia|done].
Qed.

Lemma accepts_le w n m : m ≤ n → accepts w n → accepts w m.
Proof. unfold accepts. destruct (open_for w); [lia|done]. Qed.

(** The rounds over a run of indexable lines the reader takes: each writes
    its enriched line, and the loop goes on with what follows. *)
Lemma scanLoop_app curDir pre rest w :
  Forall indexable pre → accepts w (length pre) →
  scanLoop curDir (pre ++ rest) w =
    scanLoop curDir rest (after_writes w (enriched curDir <$> pre)).
Proof.
  intros Hpre. revert w. induction Hpre as [|line pre Hline _ IH]; intros w Hw.
  - simpl. by rewrite after_writes_nil.
  - simpl. destruct (adaptLine_ok curDir line Hline) as (out & Hout & Henr).
    rewrite Hout, Fprintln_ok by (eapply accepts_le; [|done]; simpl; lia).
    rewrite IH.
    + rewrite after_writes_app, Henr. done.
    + apply accepts_after. simpl in *. done.
Qed.

(** On a line of exactly five fields the write is the line itself with the
    two derived fields appended. *)
Lemma adaptLine_appends curDir line f0 f1 f2 f3 f4 :
  Str.Split line _delim = [f0; f1; f2; f3; f4] →
  adaptLine curDir line =
    inr (line +:+ _delim +:+ exitStatus f1 +:+ _delim +:+ dirCtx curDir f2).
Proof.
  intros Hparts. rewrite (adaptLine_parts _ _ _ _ _ _ _ _ Hparts). f_equal.
  rewrite <-(Join_Split line _delim delim_not_nil), Hparts.
  cbn [Str.Join]. by rewrite !str_app_assoc.
Qed.

Lemma enriched_fiveFields curDir line :
  fiveFields line →
  enriched curDir line =
    line +:+ _delim +:+ exitStatus (Str.Split line _delim !!! 1)
         +:+ _delim +:+ dirCtx curDir (Str.Split line _delim !!! 2) +:+ fmt.LF.
Proof.
  unfold fiveFields, enriched. intros Hlen.
  destruct (Str.Split line _delim) as [|f0 [|f1 [|f2 [|f3 [|f4 [|]]]]]] eqn:Hparts;
    simplify_eq/=.
  rewrite (adaptLine_appends _ _ _ _ _ _ _ Hparts).
  by rewrite !str_app_assoc.
Qed.

Lemma fiveFields_indexable line : fiveFields line → indexable line.
Proof. unfold fiveFields, indexable. lia. Qed.

(** The goroutine on a run of indexable lines that ends in a line [line]
    whose round fails with the panic [p] before anything is written. *)
Lemma atuinAdapt_go_stops curDir input w pre line post p w0 :
  tokens input = pre ++ line :: post →
  Forall indexable pre → accepts w (length pre) →
  scanLoop curDir (line :: post) (after_writes w (enriched curDir <$> pre))
    = (Some p, post, w0) →
  atuinAdapt_go curDir input w = (Panicked p, post, w0).
Proof.
  intros Htok Hpre Hw Hline. unfold atuinAdapt_go.
  by rewrite Htok, scanLoop_app, Hline.
Qed.

(** C2: for every finite sequence of well-formed five-field lines, read by a
    consumer that keeps reading, the goroutine of [atuinAdapt] reads every
    line and leaves on the pipe exactly one enriched line per input line, in
    the order of the input, after what the pipe held before: nothing is
    reordered, dropped or duplicated, and the line written at place [i] is
    the input line at place [i] with its two derived fields appended.  When
    neither the scanner nor the closing of the pipe reports an error, the
    goroutine returns with the pipe closed. *)
Theorem adapter_preserves_order curDir (input : Scanner) w :
  Forall fiveFields (tokens input) →
  accepts w (length (tokens input)) →
  let '(res, unread, w') := atuinAdapt_go curDir input w in
  unread = []
  ∧ written w' = written w ++ (enriched curDir <$> tokens input)
  ∧ length (written w') = length (written w) + length (tokens input)
  ∧ (∀ i line, tokens input !! i = Some line →
       written w' !! (length (written w) + i)
       = Some (line +:+ _delim +:+ exitStatus (Str.Split line _delim !!! 1)
                    +:+ _delim +:+ dirCtx curDir (Str.Split line _delim !!! 2)
                    +:+ fmt.LF))
  ∧ (scan_err input = None → close_err w = None → res = Returned ∧ closed w' = true).
Proof.
  intros Hwf Hw. unfold atuinAdapt_go.
  pose proof (scanLoop_app curDir (tokens input) [] w) as Hloop.
  rewrite (right_id_L [] (++)) in Hloop.
  rewrite Hloop by (done || by eapply Forall_impl, fiveFields_indexable).
  cbn [scanLoop].
  assert (∀ i line, tokens input !! i = Some line →
            (written w ++ (enriched curDir <$> tokens input)) !! (length (written w) + i)
            = Some (line +:+ _delim +:+ exitStatus (Str.Split line _delim !!! 1)
                         +:+ _delim +:+ dirCtx curDir (Str.Split line _delim !!! 2)
                         +:+ fmt.LF)) as Hnth.
  { intros i line Hi. rewrite lookup_app_r by lia.
    replace (length (written w) + i - length (written w)) with i by lia.
    rewrite list_lookup_fmap, Hi. simpl. f_equal.
    apply enriched_fiveFields. by eapply Forall_lookup_1. }
  destruct (scan_err input) as [e|] eqn:He.
  { simpl. by rewrite length_app, length_fmap. }
  unfold Close. cbn [close_err after_writes].
  destruct (close_err w) as [e|] eqn:Hc;
    simpl; by rewrite length_app, length_fmap.
Qed.

(** C1, as amended: when the consumer closes its end while lines are still
    to come, the goroutine stops at the first write that fails: the lines
    after it stay unread and nothing more is written.  But it does not end
    quietly: it panics with the error of the write, and the write end of the
    pipe is left as it was, not closed. *)
Theorem write_failure_panics curDir (input : Scanner) w pre line post :
  tokens input = pre ++ line :: post →
  Forall indexable (pre ++ [line]) →
  open_for w = Some (length pre) →
  atuinAdapt_go curDir input w =
    (Panicked (PanicError EPIPE), post, after_writes w (enriched curDir <$> pre))
  ∧ closed (after_writes w (enriched curDir <$> pre)) = closed w.
Proof.
  intros Htok [Hpre Hline]%Forall_app Hopen. apply Forall_inv in Hline.
  split; [|done].
  eapply atuinAdapt_go_stops; [done | done | by unfold accepts; rewrite Hopen |].
  cbn [scanLoop]. destruct (adaptLine_ok curDir line Hline) as (out & -> & _).
  rewrite Fprintln_closed; [done|].
  cbn [after_writes open_for]. rewrite Hopen. simpl.
  rewrite length_fmap. f_equal. lia.
Qed.

(** C4: the loop of [atuinAdapt] indexes the parts of a line without looking
    at their number.  On a line with fewer than five parts the goroutine
    panics with an index out of range; the line is neither skipped nor
    reported, nothing is written for it, and the lines after it stay
    unread. *)
Theorem short_line_panics curDir (input : Scanner) w pre line post :
  tokens input = pre ++ line :: post →
  Forall indexable pre →
  accepts w (length pre) →
  length (Str.Split line _delim) < 5 →
  atuinAdapt_go curDir input w =
    (Panicked (IndexOutOfRange (length (Str.Split line _delim))
                               (length (Str.Split line _delim))),
     post, after_writes w (enriched curDir <$> pre)).
Proof.
  intros Htok Hpre Hw Hshort.
  eapply atuinAdapt_go_stops; [done..|].
  cbn [scanLoop]. by rewrite adaptLine_short.
Qed.

(** C7: for a record of five fields the loop derives the exit marker from
    the exit code alone and the directory annotation from the directory and
    the working directory [curDir].  The marker is the blank [" "] exactly
    when the exit code is ["0"], and otherwise contains the exit code as it
    stands; the annotation is non-empty exactly when the directory equals
    [curDir], and otherwise empty.  [curDir] is what [os.Getwd] answered to
    the one call [atuinAdapt] makes before it starts the goroutine. *)
Theorem derived_fields curDir line command exitCode directory duration timestamp :
  Str.Split line _delim = [command; exitCode; directory; duration; timestamp] →
  adaptLine curDir line =
    inr (Str.Join [command; exitCode; directory; duration; timestamp;
                   exitStatus exitCode; dirCtx curDir directory] _delim)
  ∧ (exitStatus exitCode = " " ↔ exitCode = "0")
  ∧ (exitCode ≠ "0" → Str.Contains (exitStatus exitCode) exitCode = true)
  ∧ (dirCtx curDir directory ≠ "" ↔ directory = curDir)
  ∧ (directory ≠ curDir → dirCtx curDir directory = "")
  ∧ (∀ env input, env_Pipe env = None →
       exec (atuinAdapt env input)
       = (inr pipe_r, [OsPipe; OsGetwd; Go (env_Getwd env).1 input])).
Proof.
  intros Hparts. split; [exact (adaptLine_parts _ _ _ _ _ _ _ _ Hparts)|].
  unfold exitStatus, dirCtx. repeat split.
  7:{ intros env input Hpipe.
      unfold atuinAdapt, exec, mbind, IO_bind, emit. simpl. by rewrite Hpipe. }
  - case_decide; [|tauto]. intros Heq. exfalso. revert Heq. by cbv.
  - intros ->. by rewrite decide_False by tauto.
  - intros Hne. rewrite decide_True by done.
    apply (Contains_app (tcolor.ESC +:+ "[38;5;1mexit ") exitCode (tcolor.ESC +:+ "[0m")).
  - by case_decide.
  - intros ->. by rewrite decide_True.
  - intros Hne. by rewrite decide_False.
Qed.

(** A line has the five fields [f0] to [f4] for [Split] exactly when it is
    their join, the first four close and the last holds no delimiter. *)
Lemma fiveFields_iff line f0 f1 f2 f3 f4 :
  Str.Split line _delim = [f0; f1; f2; f3; f4]
  ↔ line = Str.Join [f0; f1; f2; f3; f4] _delim
    ∧ Forall (closes _delim) [f0; f1; f2; f3]
    ∧ Str.Index f4 _delim = None.
Proof.
  split.
  - apply (Split_closes line _delim [f0; f1; f2; f3] f4 delim_not_nil).
  - intros (-> & Hfields & Hlast).
    by apply (Split_Join [f0; f1; f2; f3] f4 _delim delim_not_nil).
Qed.


End adapter.

(** ** Sequencing *)

Section io.

Context {A B : Type}.

Lemma appends_ret (a : A) : appends (mret a).
Proof. intros t. unfold mret, IO_ret. simpl. by rewrite (right_id_L [] (++)). Qed.

Lemma appends_emit e : appends (emit e).
Proof. by intros t. Qed.

Lemma appends_bind (m : IO A) (k : A → IO B) :
  appends m → (∀ a, appends (k a)) → appends (m ≫= k).
Proof.
  intros Hm Hk t. unfold mbind, IO_bind.
  rewrite (Hm t). destruct (m []) as [a t1] eqn:Em. simpl.
  rewrite (Hk a (t ++ t1)), (Hk a t1).
  destruct (k a []) as [b t2]. simpl. by rewrite (assoc_L (++)).
Qed.

Lemma exec_bind (m : IO A) (k : A → IO B) :
  (∀ a, appends (k a)) →
  exec (m ≫= k) = ((exec (k (exec m).1)).1, (exec m).2 ++ (exec (k (exec m).1)).2).
Proof.
  intros Hk. unfold exec, mbind, IO_bind.
  destruct (m []) as [a t1]. simpl. by rewrite (Hk a t1).
Qed.

End io.

(** ** The related commands of [fzfPreview] *)

Section preview.

Context (env : Env).

Implicit Types seen : gmap string bool.
Implicit Types lines a b : list string.

Lemma appends_printLines seen lines : appends (printLines seen lines).
Proof.
  revert seen. induction lines as [|line rest IH]; intros seen; simpl.
  - apply appends_ret.
  - destruct (negb _); [|done]. apply appends_bind; [|done].
    case_decide; [apply appends_emit | apply appends_ret].
Qed.

Lemma exec_printLines seen lines :
  exec (printLines seen lines)
  = (mark seen lines, Stdout <$> omap relatedLine (unseen seen lines)).
Proof.
  revert seen. induction lines as [|line rest IH]; intros seen; [done|].
  cbn [printLines mark unseen]. fold (is_seen seen line).
  destruct (negb (is_seen seen line)); [|done].
  rewrite exec_bind by (intros; apply appends_printLines).
  rewrite IH. cbn [omap list_omap fst snd]. unfold relatedLine at 2.
  by case_decide.
Qed.

Lemma appends_printResults seen cmd : appends (printResults env seen cmd).
Proof.
  unfold printResults. apply appends_bind; [apply appends_emit|]. intros _.
  destruct (env_Output env cmd); [apply appends_ret|].
  apply appends_bind; [apply appends_printLines | intros; apply appends_ret].
Qed.

Lemma exec_printResults seen cmd :
  exec (printResults env seen cmd)
  = ((mark seen (result_lines (env_Output env cmd)), result_err (env_Output env cmd)),
     CmdOutput cmd
       :: (Stdout <$> omap relatedLine (unseen seen (result_lines (env_Output env cmd))))).
Proof.
  unfold printResults. destruct (env_Output env cmd) as [err|lines]; [done|].
  rewrite exec_bind.
  - rewrite exec_bind by (intros; apply appends_ret).
    rewrite exec_printLines. unfold exec, mret, IO_ret, emit. simpl.
    by rewrite (right_id_L [] (++)).
  - intros _. apply appends_bind; [apply appends_printLines | intros; apply appends_ret].
Qed.

Lemma is_seen_empty x : is_seen ∅ x = false.
Proof. unfold is_seen. by rewrite lookup_empty. Qed.

Lemma is_seen_insert seen line x :
  is_seen (<[line := true]> seen) x = true ↔ x = line ∨ is_seen seen x = true.
Proof.
  unfold is_seen. destruct (decide (line = x)) as [->|Hne].
  - rewrite lookup_insert_eq. naive_solver.
  - rewrite lookup_insert_ne by done. naive_solver.
Qed.

(** The map the loop leaves holds what it held and the lines it has read. *)
Lemma is_seen_mark seen lines x :
  is_seen (mark seen lines) x = true ↔ is_seen seen x = true ∨ x ∈ lines.
Proof.
  revert seen. induction lines as [|line rest IH]; intros seen; simpl.
  - rewrite elem_of_nil. tauto.
  - rewrite elem_of_cons. destruct (is_seen seen line) eqn:E; simpl.
    + rewrite IH. naive_solver.
    + rewrite IH, is_seen_insert. naive_solver.
Qed.

Lemma filter_all (P : string → Prop) `{!∀ x, Decision (P x)} (l : list string) :
  (∀ x, P x) → filter P l = l.
Proof.
  intros HP. induction l as [|x l IH]; [done|].
  by rewrite filter_cons_True, IH.
Qed.

(** The test of the loop keeps of every line its first occurrence, unless
    the map held the line before. *)
Lemma unseen_first_seen seen lines :
  unseen seen lines = filter (λ x, is_seen seen x = false) (first_seen lines).
Proof.
  revert seen. induction lines as [|line rest IH]; intros seen; [done|].
  cbn [unseen first_seen]. destruct (is_seen seen line) eqn:E; simpl.
  - rewrite filter_cons_False by congruence.
    rewrite IH, list_filter_filter. apply list_filter_iff. intros x.
    split; [|tauto]. intros Hx. split; [done|]. congruence.
  - rewrite filter_cons_True by done. f_equal.
    rewrite IH, list_filter_filter. apply list_filter_iff. intros x.
    pose proof (is_seen_insert seen line x).
    destruct (is_seen (<[line:=true]> seen) x), (is_seen seen x); naive_solver.
Qed.

Lemma first_seen_app a b :
  first_seen (a ++ b) = first_seen a ++ filter (λ x, x ∉ a) (first_seen b).
Proof.
  induction a as [|x a IH]; simpl.
  - symmetry. apply filter_all. intros x. apply not_elem_of_nil.
  - f_equal. rewrite IH, filter_app. f_equal.
    rewrite list_filter_filter. apply list_filter_iff. intros y.
    rewrite not_elem_of_cons. tauto.
Qed.

Lemma elem_of_first_seen l x : x ∈ first_seen l ↔ x ∈ l.
Proof.
  induction l as [|y l IH]; simpl; [done|].
  rewrite !elem_of_cons, list_elem_of_filter, IH.
  destruct (decide (x = y)); naive_solver.
Qed.

Lemma NoDup_first_seen l : NoDup (first_seen l).
Proof.
  induction l as [|y l IH]; simpl; [constructor|].
  constructor; [|by apply NoDup_filter].
  rewrite list_elem_of_filter. naive_solver.
Qed.

Lemma sublist_first_seen l : first_seen l `sublist_of` l.
Proof.
  induction l as [|y l IH]; simpl; [done|].
  apply sublist_skip. etrans; [apply sublist_filter | done].
Qed.

(** The two passes of [printResults], one after the other over the same
    map, print the merge of the two result lists. *)
Lemma unseen_merged a b : unseen ∅ a ++ unseen (mark ∅ a) b = merged a b.
Proof.
  unfold merged. rewrite first_seen_app, !unseen_first_seen. f_equal.
  - apply filter_all. intros x. apply is_seen_empty.
  - apply list_filter_iff. intros x.
    pose proof (is_seen_mark ∅ a x) as H. rewrite is_seen_empty in H.
    destruct (is_seen (mark ∅ a) x); naive_solver.
Qed.

Lemma appends_Println s : appends (Println s).
Proof. apply appends_emit. Qed.

Lemma appends_printHeader c e d du ts : appends (printHeader c e d du ts).
Proof.
  unfold printHeader.
  repeat (apply appends_bind; [first [apply appends_Println | apply appends_emit]|intros _]).
  apply appends_Println.
Qed.

(** Lines 228-231: the two calls of [printResults] and the join of their
    errors. *)
Lemma exec_related g d :
  let ra := env_Output env g in
  let rb := env_Output env d in
  exec (printResults env ∅ g ≫= λ '(seen, err1),
        printResults env seen d ≫= λ '(_, err2),
        mret (errors_Join [err1; err2]))
  = (errors_Join [result_err ra; result_err rb],
     CmdOutput g :: (Stdout <$> omap relatedLine (unseen ∅ (result_lines ra)))
     ++ CmdOutput d
        :: (Stdout <$> omap relatedLine
                         (unseen (mark ∅ (result_lines ra)) (result_lines rb)))).
Proof.
  intros ra rb. rewrite exec_bind.
  2:{ intros [seen err1]. apply appends_bind; [apply appends_printResults|].
      intros [? err2]. apply appends_ret. }
  rewrite exec_printResults. cbn [fst snd]. fold ra.
  rewrite exec_bind by (intros [? err2]; apply appends_ret).
  rewrite exec_printResults. cbn [fst snd]. fold rb.
  unfold exec, mret, IO_ret. cbn [fst snd].
  by rewrite (right_id_L [] (++)).
Qed.

(** [fzfPreview] on an input of five parts or more: the header, then the two
    queries one after the other, each followed by what it adds to the
    related commands; the result joins the errors of the two queries. *)
Lemma exec_fzfPreview data :
  5 ≤ length (Str.Split data _delim) →
  let parts := Str.Split data _delim in
  let ra := env_Output env (globalSearch (parts !!! 0)) in
  let rb := env_Output env (dirSearch (parts !!! 0) (parts !!! 2)) in
  exec (fzfPreview env data)
  = (errors_Join [result_err ra; result_err rb],
     (exec (printHeader (parts !!! 0) (parts !!! 1) (parts !!! 2)
                        (parts !!! 3) (parts !!! 4))).2
     ++ CmdOutput (globalSearch (parts !!! 0))
        :: (Stdout <$> omap relatedLine (unseen ∅ (result_lines ra)))
     ++ CmdOutput (dirSearch (parts !!! 0) (parts !!! 2))
        :: (Stdout <$> omap relatedLine
                         (unseen (mark ∅ (result_lines ra)) (result_lines rb)))).
Proof.
  intros Hlen parts ra rb. unfold fzfPreview. fold parts.
  rewrite decide_False by (unfold parts; lia).
  rewrite exec_bind.
  2:{ intros _. apply appends_bind; [apply appends_printResults|].
      intros [seen err1]. apply appends_bind; [apply appends_printResults|].
      intros [? err2]. apply appends_ret. }
  by rewrite exec_related.
Qed.

Lemma stdout_of_app t1 t2 : stdout_of (t1 ++ t2) = stdout_of t1 ++ stdout_of t2.
Proof. apply omap_app. Qed.

Lemma stdout_of_Stdout (outs : list string) : stdout_of (Stdout <$> outs) = outs.
Proof. induction outs as [|o outs IH]; simpl; [done | by f_equal]. Qed.

Lemma commands_of_Stdout (outs : list string) : commands_of (Stdout <$> outs) = [].
Proof. induction outs as [|o outs IH]; simpl; [done | by f_equal]. Qed.

Lemma commands_of_app t1 t2 : commands_of (t1 ++ t2) = commands_of t1 ++ commands_of t2.
Proof. apply omap_app. Qed.

Lemma commands_of_printHeader c e d du ts :
  commands_of (exec (printHeader c e d du ts)).2 = [].
Proof. done. Qed.

(** What the report shows of the related commands, and which commands it
    has run, whatever the two queries answer. *)
Lemma fzfPreview_report data :
  5 ≤ length (Str.Split data _delim) →
  let parts := Str.Split data _delim in
  let ra := env_Output env (globalSearch (parts !!! 0)) in
  let rb := env_Output env (dirSearch (parts !!! 0) (parts !!! 2)) in
  (exec (fzfPreview env data)).1 = errors_Join [result_err ra; result_err rb]
  ∧ stdout_of (exec (fzfPreview env data)).2
    = stdout_of (exec (printHeader (parts !!! 0) (parts !!! 1) (parts !!! 2)
                                   (parts !!! 3) (parts !!! 4))).2
      ++ omap relatedLine (merged (result_lines ra) (result_lines rb))
  ∧ commands_of (exec (fzfPreview env data)).2
    = [globalSearch (parts !!! 0); dirSearch (parts !!! 0) (parts !!! 2)].
Proof.
  intros Hlen parts ra rb.
  pose proof (exec_fzfPreview data Hlen) as H. cbv zeta in H.
  fold parts ra rb in H. rewrite H. cbn [fst snd]. split; [done|split].
  - rewrite stdout_of_app. f_equal.
    change (stdout_of (?e :: ?t1 ++ ?e' :: ?t2))
      with (stdout_of (t1 ++ e' :: t2)).
    rewrite stdout_of_app.
    change (stdout_of (?e :: ?t)) with (stdout_of t).
    rewrite !stdout_of_Stdout, <-omap_app. by rewrite unseen_merged.
  - rewrite commands_of_app, commands_of_printHeader. simpl.
    rewrite commands_of_app, commands_of_Stdout. simpl.
    by rewrite commands_of_Stdout.
Qed.


(** C3: when both queries of the related-commands block answer, the block
    shows the merge of the global results [a] and the directory results [b]:
    the lines of [a] first, then those of [b] that [a] does not hold, every
    line once, at the place of its first occurrence, lines being compared as
    whole strings.  Each line of the merge with a tab in it is printed in
    the form of [relatedLine]. *)
Theorem related_commands_merged data a b :
  5 ≤ length (Str.Split data _delim) →
  env_Output env (globalSearch (Str.Split data _delim !!! 0)) = inr a →
  env_Output env (dirSearch (Str.Split data _delim !!! 0) (Str.Split data _delim !!! 2))
    = inr b →
  (exec (fzfPreview env data)).1 = None
  ∧ stdout_of (exec (fzfPreview env data)).2
    = stdout_of (exec (printHeader (Str.Split data _delim !!! 0)
                                   (Str.Split data _delim !!! 1)
                                   (Str.Split data _delim !!! 2)
                                   (Str.Split data _delim !!! 3)
                                   (Str.Split data _delim !!! 4))).2
      ++ omap relatedLine (merged a b)
  ∧ merged a b = first_seen a ++ filter (λ x, x ∉ a) (first_seen b)
  ∧ NoDup (merged a b)
  ∧ merged a b `sublist_of` a ++ b
  ∧ (∀ x, x ∈ merged a b ↔ x ∈ a ∨ x ∈ b).
Proof.
  intros Hlen Ha Hb.
  destruct (fzfPreview_report data Hlen) as (Herr & Hout & _).
  rewrite Ha, Hb in Herr, Hout. repeat split; try done.
  - apply first_seen_app.
  - apply NoDup_first_seen.
  - apply sublist_first_seen.
  - unfold merged. rewrite elem_of_first_seen. apply elem_of_app.
  - unfold merged. rewrite elem_of_first_seen. apply elem_of_app.
Qed.

Lemma appends_fzfPreview data : appends (fzfPreview env data).
Proof.
  unfold fzfPreview. case_decide; [apply appends_ret|].
  apply appends_bind; [apply appends_printHeader|]. intros _.
  apply appends_bind; [apply appends_printResults|].
  intros [seen err1]. apply appends_bind; [apply appends_printResults|].
  intros [? err2]. apply appends_ret.
Qed.

(** [main] in preview mode: an error of [fzfPreview] goes to [log.Fatal]
    after everything [fzfPreview] has printed, and the exit status is 1. *)
Lemma exec_main_preview backend prog data :
  exec (main env backend [prog; "--preview"; data])
  = match (exec (fzfPreview env data)).1 with
    | Some e => (1%Z, (exec (fzfPreview env data)).2 ++ [LogFatal e])
    | None => (0%Z, (exec (fzfPreview env data)).2)
    end.
Proof.
  unfold main. cbn [length bool_decide andb]. simpl.
  rewrite exec_bind.
  - destruct (exec (fzfPreview env data)).1; simpl; [done|].
    by rewrite (right_id_L [] (++)).
  - intros [e|]; [|apply appends_ret].
    apply appends_bind; [apply appends_emit | intros; apply appends_ret].
Qed.

(** C5: on a well-formed input [fzfPreview] runs both queries, the global
    one and then the one of the directory, whatever either answers.  Its
    result joins the errors of the two, so it is an error as soon as one
    query fails, and it holds both errors when both fail; the related
    commands it prints are the merge of the lines of the queries that
    answered. *)
Theorem preview_queries_collected data :
  5 ≤ length (Str.Split data _delim) →
  let parts := Str.Split data _delim in
  let ra := env_Output env (globalSearch (parts !!! 0)) in
  let rb := env_Output env (dirSearch (parts !!! 0) (parts !!! 2)) in
  let header :=
    stdout_of (exec (printHeader (parts !!! 0) (parts !!! 1) (parts !!! 2)
                                 (parts !!! 3) (parts !!! 4))).2 in
  let result := (exec (fzfPreview env data)).1 in
  let out := stdout_of (exec (fzfPreview env data)).2 in
  commands_of (exec (fzfPreview env data)).2
    = [globalSearch (parts !!! 0); dirSearch (parts !!! 0) (parts !!! 2)]
  ∧ result = errors_Join [result_err ra; result_err rb]
  ∧ out = header ++ omap relatedLine (merged (result_lines ra) (result_lines rb))
  ∧ (∀ ea b, ra = inl ea → rb = inr b →
       result = Some (joinError [ea]) ∧ out = header ++ omap relatedLine (first_seen b))
  ∧ (∀ a eb, ra = inr a → rb = inl eb →
       result = Some (joinError [eb]) ∧ out = header ++ omap relatedLine (first_seen a))
  ∧ (∀ ea eb, ra = inl ea → rb = inl eb →
       result = Some (joinError [ea; eb]) ∧ out = header)
  ∧ (∀ backend prog e, result = Some e →
       exec (main env backend [prog; "--preview"; data])
       = (1%Z, (exec (fzfPreview env data)).2 ++ [LogFatal e])).
Proof.
  intros Hlen parts ra rb header result out.
  destruct (fzfPreview_report data Hlen) as (Herr & Hout & Hcmds).
  fold parts ra rb header result out in Herr, Hout, Hcmds.
  split; [done|]. split; [done|]. split; [done|].
  split; [|split; [|split]].
  4:{ intros backend prog e He. rewrite exec_main_preview.
      fold result. by rewrite He. }
  all: clearbody ra rb header result out; subst result out.
  all: intros ? ? -> ->; (split; [done|]); simpl.
  - done.
  - unfold merged. by rewrite (right_id_L [] (++)).
  - by rewrite (right_id_L [] (++)).
Qed.

(** C6: [fzfPreview] checks the number of parts before it prints.  On an
    input of fewer than five parts it returns the format error with the
    number it found, as a value and not as a panic, and has printed
    nothing and run no command.  On an input of five parts or more the check passes: the result
    is never the format error, and the header of the report is printed. *)
Theorem preview_format_check data :
  (length (Str.Split data _delim) < 5 →
     exec (fzfPreview env data)
     = (Some (Errorf_format (length (Str.Split data _delim))), []))
  ∧ (5 ≤ length (Str.Split data _delim) →
     (∀ n, (exec (fzfPreview env data)).1 ≠ Some (Errorf_format n))
     ∧ ∃ related,
         stdout_of (exec (fzfPreview env data)).2
         = stdout_of (exec (printHeader (Str.Split data _delim !!! 0)
                                        (Str.Split data _delim !!! 1)
                                        (Str.Split data _delim !!! 2)
                                        (Str.Split data _delim !!! 3)
                                        (Str.Split data _delim !!! 4))).2
           ++ related).
Proof.
  split.
  - intros Hshort. unfold fzfPreview. by rewrite decide_True.
  - intros Hlen. destruct (fzfPreview_report data Hlen) as (Herr & Hout & _).
    split; [|by eexists].
    intros n. rewrite Herr. unfold errors_Join.
    by destruct (omap id _).
Qed.

End preview.

(** ** [run] and [main] *)

Section controller.

Context (env : Env) (backend : Scanner).

(** C9: [run] goes through its steps in the order backend launch, adapter
    attach, selector run, backend await, and a step is begun only when the
    steps before it have succeeded.  When a step fails, [run] returns the
    error of that step and begins no later step.  When the selector has run
    with success, [run] waits for the backend after the selector has ended,
    and its result is the result of that wait: it returns without error only
    once the backend has ended without error. *)
Theorem run_sequence query :
  let '(err, t) := exec (run env backend query) in
  let '(r1, t1) := exec (altuinSearch env backend) in
  steps_of t `prefix_of` the_steps
  ∧ (err = None → steps_of t = the_steps)
  ∧ match r1 with
    | inl e => err = Some e ∧ steps_of t = take 1 the_steps
    | inr atuin =>
        let '(r2, t2) := exec (atuinAdapt env (stdout atuin)) in
        match r2 with
        | inl e => err = Some e ∧ steps_of t = take 2 the_steps
        | inr fzfInput =>
            let '(r3, t3) := exec (fzf env fzfInput query) in
            match r3 with
            | Some e => err = Some e ∧ steps_of t = take 3 the_steps
            | None =>
                err = env_Wait env (cmd atuin)
                ∧ steps_of t = the_steps
                ∧ ∃ argv, t = t1 ++ t2 ++ [OsExecutable; CmdRun argv; CmdWait (cmd atuin); StdoutClose]
            end
        end
    end.
Proof.
  unfold run, run_body, altuinSearch, atuinAdapt, fzf, exec, mbind, IO_bind, mret, IO_ret, emit.
  simpl.
  destruct (env_StdoutPipe env _) as [e1|]; simpl.
  { split; [by exists (drop 1 the_steps)|done]. }
  destruct (env_Start env _) as [e2|]; simpl.
  { split; [by exists (drop 1 the_steps)|done]. }
  destruct (env_Pipe env) as [e3|]; simpl.
  { split; [by exists (drop 2 the_steps)|done]. }
  destruct (env_Executable env) as [selfExe [e4|]]; simpl.
  { split; [by exists (drop 3 the_steps)|done]. }
  destruct (env_Run env _) as [e5|]; simpl.
  { split; [by exists (drop 3 the_steps)|done]. }
  destruct (env_Wait env _) as [e6|]; simpl;
    (split; [by exists []|]); (split; [done|]);
    (split; [done|]); (split; [done|]); by eexists.
Qed.

(** C10: with [--preview] and no record after it, [main] returns at once:
    it prints nothing, starts no process, calls neither [fzfPreview] nor
    [run], and the exit status is zero. *)
Theorem preview_without_record prog :
  exec (main env backend [prog; "--preview"]) = (0%Z, []).
Proof. reflexivity. Qed.

End controller.

(** ** The worked execution *)

Example example_lines_fiveFields : Forall fiveFields example_lines.
Proof. repeat constructor. Qed.

(** The three records come out as three lines in the same order; the second
    carries the marker of its exit code, the first the annotation of the
    working directory. *)
Example example_written :
  written (atuinAdapt_go "/home/u" example_input (fresh_pipe None None)).2
  = ["ls -l:::0:::/home/u:::1s:::2h ago::: ::: " +:+ tcolor.ESC
       +:+ "[38;5;242m(current dir)" +:+ tcolor.ESC +:+ "[0m" +:+ fmt.LF;
     "make:::2:::/src:::3s:::1h ago:::" +:+ tcolor.ESC +:+ "[38;5;1mexit 2"
       +:+ tcolor.ESC +:+ "[0m:::" +:+ fmt.LF;
     "pwd:::0:::/tmp:::0s:::5m ago::: :::" +:+ fmt.LF].
Proof. reflexivity. Qed.

Lemma adapter_preserves_order_witness :
  Forall fiveFields (tokens example_input)
  ∧ accepts (fresh_pipe None None) (length (tokens example_input))
  ∧ let '(res, unread, w') :=
      atuinAdapt_go "/home/u" example_input (fresh_pipe None None) in
    unread = []
    ∧ written w' = written (fresh_pipe None None)
                   ++ (enriched "/home/u" <$> tokens example_input)
    ∧ length (written w') = length (written (fresh_pipe None None))
                            + length (tokens example_input)
    ∧ (∀ i line, tokens example_input !! i = Some line →
         written w' !! (length (written (fresh_pipe None None)) + i)
         = Some (line +:+ _delim +:+ exitStatus (Str.Split line _delim !!! 1)
                      +:+ _delim +:+ dirCtx "/home/u" (Str.Split line _delim !!! 2)
                      +:+ fmt.LF))
    ∧ (scan_err example_input = None → close_err (fresh_pipe None None) = None →
       res = Returned ∧ closed w' = true).
Proof.
  split; [exact example_lines_fiveFields|]. split; [exact I|].
  exact (adapter_preserves_order "/home/u" example_input (fresh_pipe None None)
           example_lines_fiveFields I).
Defined.

(** The consumer closes after one line: the second write fails and the
    goroutine panics with the error of that write. *)
Lemma consumer_closes_early :
  (atuinAdapt_go "/home/u" example_input (fresh_pipe (Some 1) None)).1.1
    = Panicked (PanicError EPIPE)
  ∧ (atuinAdapt_go "/home/u" example_input (fresh_pipe (Some 1) None)).1.1 ≠ Returned.
Proof. split; [reflexivity | discriminate]. Qed.

Lemma write_failure_panics_witness :
  tokens example_input
    = ["ls -l:::0:::/home/u:::1s:::2h ago"] ++ "make:::2:::/src:::3s:::1h ago"
        :: ["pwd:::0:::/tmp:::0s:::5m ago"]
  ∧ Forall indexable (["ls -l:::0:::/home/u:::1s:::2h ago"]
                      ++ ["make:::2:::/src:::3s:::1h ago"])
  ∧ open_for (fresh_pipe (Some 1) None) = Some (length ["ls -l:::0:::/home/u:::1s:::2h ago"])
  ∧ atuinAdapt_go "/home/u" example_input (fresh_pipe (Some 1) None)
    = (Panicked (PanicError EPIPE), ["pwd:::0:::/tmp:::0s:::5m ago"],
       after_writes (fresh_pipe (Some 1) None)
         (enriched "/home/u" <$> ["ls -l:::0:::/home/u:::1s:::2h ago"])).
Proof.
  assert (Forall indexable (["ls -l:::0:::/home/u:::1s:::2h ago"]
                            ++ ["make:::2:::/src:::3s:::1h ago"])) as Hwf.
  { repeat constructor; unfold indexable; vm_compute; lia. }
  split; [reflexivity|]. split; [exact Hwf|]. split; [reflexivity|].
  exact (proj1 (write_failure_panics "/home/u" example_input (fresh_pipe (Some 1) None)
                  ["ls -l:::0:::/home/u:::1s:::2h ago"] "make:::2:::/src:::3s:::1h ago"
                  ["pwd:::0:::/tmp:::0s:::5m ago"] eq_refl Hwf eq_refl)).
Defined.

Lemma short_line_panics_witness :
  tokens example_short
    = ["ls -l:::0:::/home/u:::1s:::2h ago"] ++ "cmd:::1:::dir"
        :: ["pwd:::0:::/tmp:::0s:::5m ago"]
  ∧ Forall indexable ["ls -l:::0:::/home/u:::1s:::2h ago"]
  ∧ accepts (fresh_pipe None None) (length ["ls -l:::0:::/home/u:::1s:::2h ago"])
  ∧ length (Str.Split "cmd:::1:::dir" _delim) < 5
  ∧ atuinAdapt_go "/home/u" example_short (fresh_pipe None None)
    = (Panicked (IndexOutOfRange (length (Str.Split "cmd:::1:::dir" _delim))
                                 (length (Str.Split "cmd:::1:::dir" _delim))),
       ["pwd:::0:::/tmp:::0s:::5m ago"],
       after_writes (fresh_pipe None None)
         (enriched "/home/u" <$> ["ls -l:::0:::/home/u:::1s:::2h ago"])).
Proof.
  assert (Forall indexable ["ls -l:::0:::/home/u:::1s:::2h ago"]) as Hwf.
  { repeat constructor; unfold indexable; vm_compute; lia. }
  assert (length (Str.Split "cmd:::1:::dir" _delim) < 5) as Hshort.
  { vm_compute; lia. }
  split; [reflexivity|]. split; [exact Hwf|]. split; [exact I|].
  split; [exact Hshort|].
  exact (short_line_panics "/home/u" example_short (fresh_pipe None None)
           ["ls -l:::0:::/home/u:::1s:::2h ago"] "cmd:::1:::dir"
           ["pwd:::0:::/tmp:::0s:::5m ago"] eq_refl Hwf I Hshort).
Defined.

(** The panic on the line of three parts names the index 3. *)
Example example_short_panic :
  (atuinAdapt_go "/home/u" example_short (fresh_pipe None None)).1.1
  = Panicked (IndexOutOfRange 3 3).
Proof. reflexivity. Qed.

Lemma derived_fields_witness :
  Str.Split "make:::2:::/src:::3s:::1h ago" _delim = ["make"; "2"; "/src"; "3s"; "1h ago"]
  ∧ adaptLine "/home/u" "make:::2:::/src:::3s:::1h ago"
    = inr (Str.Join ["make"; "2"; "/src"; "3s"; "1h ago";
                     exitStatus "2"; dirCtx "/home/u" "/src"] _delim)
  ∧ (exitStatus "2" = " " ↔ "2" = "0")
  ∧ ("2" ≠ "0" → Str.Contains (exitStatus "2") "2" = true)
  ∧ (dirCtx "/home/u" "/src" ≠ "" ↔ "/src" = "/home/u")
  ∧ ("/src" ≠ "/home/u" → dirCtx "/home/u" "/src" = "")
  ∧ (∀ env input, env_Pipe env = None →
       exec (atuinAdapt env input)
       = (inr pipe_r, [OsPipe; OsGetwd; Go (env_Getwd env).1 input])).
Proof.
  split; [reflexivity|].
  exact (derived_fields "/home/u" "make:::2:::/src:::3s:::1h ago"
           "make" "2" "/src" "3s" "1h ago" eq_refl).
Defined.


(** Fields without a delimiter inside can still meet one at their borders:
    a command that ends in a colon gives, once joined, a line that [Split]
    cuts one byte early. *)
Example border_colon :
  Forall (λ f, Str.Contains f _delim = false) ["a:"; "0"; "d"; "u"; "t"]
  ∧ Str.Split (Str.Join ["a:"; "0"; "d"; "u"; "t"] _delim) _delim
    = ["a"; ":0"; "d"; "u"; "t"].
Proof. split; [repeat constructor | reflexivity]. Qed.

(** The preview of the record [example_data] when the global query answers
    [example_global] and the query of the directory [example_scoped]. *)
Example example_merged :
  merged example_global example_scoped
  = ["a" +:+ TAB +:+ "/x"; "b" +:+ TAB +:+ "/y"; "c" +:+ TAB +:+ "/z"].
Proof. reflexivity. Qed.

Example example_related :
  omap relatedLine (merged example_global example_scoped)
  = ["a                                        (/x)" +:+ fmt.LF;
     "b                                        (/y)" +:+ fmt.LF;
     "c                                        (/z)" +:+ fmt.LF].
Proof. reflexivity. Qed.

Lemma related_commands_merged_witness :
  5 ≤ length (Str.Split example_data _delim)
  ∧ env_Output example_env_both (globalSearch (Str.Split example_data _delim !!! 0)) = inr example_global
  ∧ env_Output example_env_both (dirSearch (Str.Split example_data _delim !!! 0)
                              (Str.Split example_data _delim !!! 2)) = inr example_scoped
  ∧ (exec (fzfPreview example_env_both example_data)).1 = None
  ∧ stdout_of (exec (fzfPreview example_env_both example_data)).2
    = stdout_of (exec (printHeader "a" "0" "/home/u" "1s" "2h ago")).2
      ++ omap relatedLine (merged example_global example_scoped).
Proof.
  assert (5 ≤ length (Str.Split example_data _delim)) as Hlen by (vm_compute; lia).
  pose proof (related_commands_merged example_env_both example_data example_global example_scoped
                Hlen eq_refl eq_refl) as (Herr & Hout & _).
  split; [exact Hlen|]. split; [reflexivity|]. split; [reflexivity|].
  split; [exact Herr | exact Hout].
Defined.

Lemma preview_queries_collected_witness :
  5 ≤ length (Str.Split example_data _delim)
  ∧ commands_of (exec (fzfPreview example_env_one example_data)).2
    = [globalSearch "a"; dirSearch "a" "/home/u"]
  ∧ (exec (fzfPreview example_env_one example_data)).1 = Some (joinError [Foreign "exit status 1"])
  ∧ stdout_of (exec (fzfPreview example_env_one example_data)).2
    = stdout_of (exec (printHeader "a" "0" "/home/u" "1s" "2h ago")).2
      ++ omap relatedLine (first_seen example_scoped).
Proof.
  assert (5 ≤ length (Str.Split example_data _delim)) as Hlen by (vm_compute; lia).
  pose proof (preview_queries_collected example_env_one example_data Hlen)
    as (Hcmds & _ & _ & Hone & _).
  destruct (Hone (Foreign "exit status 1") example_scoped eq_refl eq_refl)
    as [Herr Hout].
  split; [exact Hlen|]. split; [exact Hcmds|]. split; [exact Herr | exact Hout].
Defined.

Lemma preview_format_check_witness :
  (length (Str.Split "cmd:::1:::dir" _delim) < 5
   ∧ exec (fzfPreview example_env_both "cmd:::1:::dir") = (Some (Errorf_format 3), []))
  ∧ (5 ≤ length (Str.Split example_data _delim)
     ∧ ∀ n, (exec (fzfPreview example_env_both example_data)).1 ≠ Some (Errorf_format n)).
Proof.
  assert (length (Str.Split "cmd:::1:::dir" _delim) < 5) as Hshort by (vm_compute; lia).
  assert (5 ≤ length (Str.Split example_data _delim)) as Hlen by (vm_compute; lia).
  split.
  - split; [exact Hshort|].
    exact (proj1 (preview_format_check example_env_both "cmd:::1:::dir") Hshort).
  - split; [exact Hlen|].
    exact (proj1 (proj2 (preview_format_check example_env_both example_data) Hlen)).
Defined.

(** * Further properties *)

(** ** The goroutine of [atuinAdapt] on any input *)

Section goroutine.

Implicit Types curDir line : string.
Implicit Types w : PipeWriter.

Lemma adaptLine_panics curDir line p :
  adaptLine curDir line = inl p → ¬ indexable line.
Proof.
  intros Hp Hline. destruct (adaptLine_ok curDir line Hline) as (out & Hout & _).
  congruence.
Qed.

Lemma Fprintln_cases w s :
  (accepts w 1 ∧ Fprintln w s = (after_writes w [s +:+ fmt.LF], None))
  ∨ (open_for w = Some 0 ∧ Fprintln w s = (w, Some EPIPE)).
Proof.
  destruct (open_for w) as [[|k]|] eqn:Ho.
  - right. split; [done|]. by apply Fprintln_closed.
  - left. assert (accepts w 1) by (unfold accepts; rewrite Ho; lia).
    split; [done|]. by apply Fprintln_ok.
  - left. assert (accepts w 1) by (by unfold accepts; rewrite Ho).
    split; [done|]. by apply Fprintln_ok.
Qed.

Lemma accepts_S w x k :
  accepts w 1 → accepts (after_writes w [x]) k → accepts w (S k).
Proof.
  unfold accepts, after_writes. destruct w as [wr [n|] ce cl]; simpl; [lia|done].
Qed.

(** The loop on any tokens and any pipe: it takes [k] lines, writes their
    enriched lines, and either ends there because the tokens are used up, or
    panics on the line at place [k] and leaves what follows it unread. *)
Lemma scanLoop_prefix curDir toks w :
  ∃ k,
    k ≤ length toks
    ∧ Forall indexable (take k toks)
    ∧ accepts w k
    ∧ (scanLoop curDir toks w).2 = after_writes w (enriched curDir <$> take k toks)
    ∧ (scanLoop curDir toks w).1.2 = drop (S k) toks
    ∧ ((scanLoop curDir toks w).1.1 = None ↔ k = length toks).
Proof.
  revert w. induction toks as [|line rest IH]; intros w.
  - exists 0. simpl. rewrite after_writes_nil.
    repeat split; try done. unfold accepts. destruct (open_for w); [lia|done].
  - assert (accepts w 0) as H0 by (unfold accepts; destruct (open_for w); [lia|done]).
    cbn [scanLoop]. destruct (adaptLine curDir line) as [p|out] eqn:Hline.
    { exists 0. simpl. rewrite after_writes_nil.
      repeat split; try done; try lia. }
    destruct (Fprintln_cases w out) as [[Hacc ->]|[Hclosed ->]].
    + destruct (IH (after_writes w [out +:+ fmt.LF]))
        as (k & Hk & Hwf & Hw & Hpipe & Hrest & Hnone).
      exists (S k). cbn [take fmap list_fmap drop length].
      assert (indexable line) as Hidx.
      { unfold indexable. destruct (decide (5 ≤ length (Str.Split line _delim)));
          [done|]. rewrite adaptLine_short in Hline by lia. done. }
      assert (enriched curDir line = out +:+ fmt.LF) as Henr.
      { unfold enriched. by rewrite Hline. }
      repeat split.
      * lia.
      * by constructor.
      * by eapply accepts_S.
      * rewrite Hpipe, after_writes_app. by rewrite Henr.
      * done.
      * intros H. apply Hnone in H. lia.
      * intros H. apply Hnone. lia.
    + exists 0. simpl. rewrite after_writes_nil.
      repeat split; try done; try lia.
Qed.

(** The loop ends without a panic exactly when every line can be indexed
    and the reader takes every write. *)
Lemma scanLoop_None curDir toks w :
  (scanLoop curDir toks w).1.1 = None
  ↔ Forall indexable toks ∧ accepts w (length toks).
Proof.
  split.
  - intros Hnone.
    destruct (scanLoop_prefix curDir toks w) as (k & _ & Hwf & Hw & _ & _ & Hk).
    apply Hk in Hnone. subst k. by rewrite firstn_all in Hwf.
  - intros [Hwf Hw].
    pose proof (scanLoop_app curDir toks [] w Hwf Hw) as H.
    rewrite (right_id_L [] (++)) in H. by rewrite H.
Qed.

Lemma closed_after_writes w outs : closed (after_writes w outs) = closed w.
Proof. done. Qed.

(** X1: whatever the input and the pipe, and however the goroutine ends,
    what it has added to the pipe is the enriched lines of the first [k]
    input lines, in their order, for some [k]; the line at place [k], if
    there is one, is the line it ended on, and the lines after it are
    unread.  It returns only with [k] the number of all lines. *)
Theorem goroutine_writes_prefix curDir (input : Scanner) w :
  let '(res, unread, w') := atuinAdapt_go curDir input w in
  ∃ k,
    k ≤ length (tokens input)
    ∧ Forall indexable (take k (tokens input))
    ∧ written w' = written w ++ (enriched curDir <$> take k (tokens input))
    ∧ unread = drop (S k) (tokens input)
    ∧ (res = Returned → k = length (tokens input)).
Proof.
  unfold atuinAdapt_go.
  destruct (scanLoop_prefix curDir (tokens input) w)
    as (k & Hk & Hwf & _ & Hpipe & Hrest & Hnone).
  destruct (scanLoop curDir (tokens input) w) as [[[p|] rest] w1];
    simpl in Hpipe, Hrest, Hnone; subst w1 rest.
  - exists k. repeat split; done.
  - assert (k = length (tokens input)) as Hall by (by apply Hnone).
    destruct (scan_err input); [exists k; repeat split; done|].
    unfold Close. cbn [close_err after_writes].
    destruct (close_err w); exists k; repeat split; done.
Qed.

(** X2: the goroutine returns, rather than panics, exactly when every line
    has five parts or more, the reader takes every write, the scanner ends
    without an error and closing the pipe succeeds. *)
Theorem goroutine_returns_iff curDir (input : Scanner) w :
  (atuinAdapt_go curDir input w).1.1 = Returned
  ↔ Forall indexable (tokens input)
    ∧ accepts w (length (tokens input))
    ∧ scan_err input = None
    ∧ close_err w = None.
Proof.
  unfold atuinAdapt_go.
  pose proof (scanLoop_None curDir (tokens input) w) as Hnone.
  destruct (scanLoop curDir (tokens input) w) as [[[p|] rest] w1] eqn:Hloop;
    simpl in Hnone.
  - simpl. split; [done|]. intros (Hwf & Hw & _).
    by pose proof (proj2 Hnone (conj Hwf Hw)).
  - destruct (proj1 Hnone eq_refl) as [Hwf Hw].
    pose proof (scanLoop_app curDir (tokens input) [] w Hwf Hw) as Happ.
    rewrite (right_id_L [] (++)), Hloop in Happ. injection Happ as _ ->.
    destruct (scan_err input) as [e|]; simpl; [naive_solver|].
    destruct (close_err w) as [e|]; simpl; naive_solver.
Qed.

(** X3: when the scanner ends with an error after lines that were all
    written, the goroutine panics with that error; every line is on the
    pipe, and the write end is not closed. *)
Theorem scanner_error_panics curDir (input : Scanner) w e :
  Forall indexable (tokens input) →
  accepts w (length (tokens input)) →
  scan_err input = Some e →
  atuinAdapt_go curDir input w
  = (Panicked (PanicError e), [], after_writes w (enriched curDir <$> tokens input))
  ∧ closed (atuinAdapt_go curDir input w).2 = closed w.
Proof.
  intros Hwf Hw He. unfold atuinAdapt_go.
  pose proof (scanLoop_app curDir (tokens input) [] w Hwf Hw) as Happ.
  rewrite (right_id_L [] (++)) in Happ. rewrite Happ. cbn [scanLoop].
  by rewrite He.
Qed.

(** X4: when all lines are written and the scanner ends without an error,
    but closing the write end fails, the goroutine panics with the error of
    the close. *)
Theorem close_error_panics curDir (input : Scanner) w e :
  Forall indexable (tokens input) →
  accepts w (length (tokens input)) →
  scan_err input = None →
  close_err w = Some e →
  (atuinAdapt_go curDir input w).1 = (Panicked (PanicError e), [])
  ∧ written (atuinAdapt_go curDir input w).2
    = written w ++ (enriched curDir <$> tokens input).
Proof.
  intros Hwf Hw He Hc. unfold atuinAdapt_go.
  pose proof (scanLoop_app curDir (tokens input) [] w Hwf Hw) as Happ.
  rewrite (right_id_L [] (++)) in Happ. rewrite Happ. cbn [scanLoop].
  rewrite He. unfold Close. cbn [close_err after_writes]. by rewrite Hc.
Qed.

(** X5: on a pipe that is open, the goroutine calls [Close] on the write
    end, which [closed] records, exactly when the loop has gone through
    every line without a panic and the scanner has ended without an error;
    on every panic of the loop or of the scanner the write end is left
    unclosed. *)
Theorem pipe_closed_iff curDir (input : Scanner) w :
  closed w = false →
  (closed (atuinAdapt_go curDir input w).2 = true
   ↔ Forall indexable (tokens input)
     ∧ accepts w (length (tokens input))
     ∧ scan_err input = None).
Proof.
  intros Hopen. unfold atuinAdapt_go.
  pose proof (scanLoop_None curDir (tokens input) w) as Hnone.
  destruct (scanLoop_prefix curDir (tokens input) w)
    as (k & _ & _ & _ & Hpipe & _ & _).
  destruct (scanLoop curDir (tokens input) w) as [[[p|] rest] w1] eqn:Hloop;
    simpl in Hnone, Hpipe; subst w1.
  - simpl. rewrite Hopen. split; [done|].
    intros (Hwf & Hw & _). by pose proof (proj2 Hnone (conj Hwf Hw)).
  - destruct (proj1 Hnone eq_refl) as [Hwf Hw].
    destruct (scan_err input) as [e|]; simpl.
    + rewrite Hopen. naive_solver.
    + unfold Close. cbn [close_err after_writes].
      destruct (close_err w); simpl; naive_solver.
Qed.

End goroutine.

(** ** Parts after the fifth *)

Section truncation.

Implicit Types s sep line data : string.

Lemma closes_Index_None sep f : sep ≠ "" → closes sep f → Str.Index f sep = None.
Proof.
  unfold closes. intros Hsep Hf. apply Index_None_intro. intros k.
  destruct (decide (k < String.length f)) as [Hk|Hk].
  - destruct (Str.HasPrefix (Str.drop k f) sep) eqn:E; [|done].
    apply (HasPrefix_app_l _ sep) in E.
    rewrite <-str_drop_app_le in E by lia.
    by rewrite (Index_first _ _ _ _ Hf Hk) in E.
  - rewrite str_drop_ge by lia. by apply HasPrefix_nil.
Qed.

Lemma Join_app l1 l2 sep :
  l1 ≠ [] → l2 ≠ [] →
  Str.Join (l1 ++ l2) sep = Str.Join l1 sep +:+ sep +:+ Str.Join l2 sep.
Proof.
  intros H1 H2. induction l1 as [|e l1 IH]; [done|].
  destruct l1 as [|e' l1].
  - simpl. by destruct l2.
  - rewrite <-app_comm_cons, !Join_cons by done.
    rewrite IH by done. by rewrite !str_app_assoc.
Qed.

(** The first [n] parts of a string, joined, split into themselves. *)
Lemma Split_Join_take s sep n :
  sep ≠ "" → 0 < n → n ≤ length (Str.Split s sep) →
  Str.Split (Str.Join (take n (Str.Split s sep)) sep) sep = take n (Str.Split s sep).
Proof.
  intros Hsep Hn Hlen.
  destruct (exists_last (Split_not_nil s sep Hsep)) as (fields & last & Hparts).
  destruct (Split_closes s sep fields last Hsep Hparts) as (_ & Hfields & Hlast).
  rewrite Hparts in Hlen |- *. rewrite length_app in Hlen. simpl in Hlen.
  destruct (decide (n ≤ length fields)) as [Hle|Hgt].
  - rewrite take_app_le by done.
    destruct n as [|n]; [lia|].
    destruct (lookup_lt_is_Some_2 fields n ltac:(lia)) as [f Hf].
    rewrite (take_S_r _ _ _ Hf).
    apply Split_Join; [done | |].
    + by apply Forall_take.
    + apply closes_Index_None; [done|].
      by eapply Forall_lookup_1.
  - rewrite take_ge by (rewrite length_app; simpl; lia).
    by apply Split_Join.
Qed.

(** X6: the loop of [atuinAdapt] looks at the first five parts of a line
    only.  On a line of more than five parts, as a command that holds the
    delimiter gives, it writes what it writes for the first five parts
    joined; that join is a line of exactly five fields, and the line is that
    join followed by a delimiter and the parts that are dropped. *)
Theorem adaptLine_first_five curDir line :
  indexable line →
  fiveFields (Str.Join (take 5 (Str.Split line _delim)) _delim)
  ∧ adaptLine curDir line
    = adaptLine curDir (Str.Join (take 5 (Str.Split line _delim)) _delim)
  ∧ (5 < length (Str.Split line _delim) →
     line = Str.Join (take 5 (Str.Split line _delim)) _delim +:+ _delim
            +:+ Str.Join (drop 5 (Str.Split line _delim)) _delim).
Proof.
  unfold indexable, fiveFields. intros Hlen.
  pose proof (Split_Join_take line _delim 5 delim_not_nil ltac:(lia) Hlen) as H5.
  split; [|split].
  - rewrite H5, length_take. lia.
  - destruct (Str.Split line _delim) as [|f0 [|f1 [|f2 [|f3 [|f4 more]]]]] eqn:Hparts;
      simpl in Hlen; try lia.
    rewrite (adaptLine_parts _ _ _ _ _ _ _ _ Hparts).
    cbn [take] in H5. by rewrite (adaptLine_parts _ _ _ _ _ _ _ _ H5).
  - intros Hmore.
    rewrite <-Join_app.
    + by rewrite take_drop, Join_Split.
    + intros E. apply (f_equal length) in E. rewrite length_take in E.
      change (length (@nil string)) with 0 in E. lia.
    + intros E. apply (f_equal length) in E. rewrite length_drop in E.
      change (length (@nil string)) with 0 in E. lia.
Qed.

(** X7: [fzfPreview] too looks at the first five parts only: on an input of
    five parts or more it does what it does on the first five joined. *)
Theorem fzfPreview_first_five (env : Env) data :
  5 ≤ length (Str.Split data _delim) →
  fzfPreview env data
  = fzfPreview env (Str.Join (take 5 (Str.Split data _delim)) _delim).
Proof.
  intros Hlen.
  pose proof (Split_Join_take data _delim 5 delim_not_nil ltac:(lia) Hlen) as H5.
  unfold fzfPreview. rewrite H5.
  destruct (Str.Split data _delim) as [|f0 [|f1 [|f2 [|f3 [|f4 more]]]]] eqn:Hparts;
    simpl in Hlen; try lia.
  rewrite decide_False by (simpl; lia).
  by rewrite decide_False by (simpl; lia).
Qed.

End truncation.

(** ** More on [fzfPreview] and [printResults] *)

Section related.

Context (env : Env).

Implicit Types seen : gmap string bool.
Implicit Types lines a b : list string.

Lemma SplitN_2 s sep :
  sep ≠ "" →
  Str.SplitN s sep 2
  = match Str.Index s sep with
    | None => [s]
    | Some m => [Str.take m s; Str.drop (m + String.length sep) s]
    end.
Proof.
  intros Hsep. unfold Str.SplitN, Str.genSplit.
  destruct (decide (2 = 0)%Z); [lia|]. destruct (decide (2 < 0)%Z); [lia|].
  destruct s as [|c s].
  - rewrite Index_nil by done. by destruct (decide (_ > _)%Z).
  - destruct (decide (_ > _)%Z) as [Hgt|_]; [simpl in Hgt; lia|].
    change (Z.to_nat (2 - 1)) with 1. cbn [Str.genSplit_loop].
    by destruct (Str.Index (String c s) sep).
Qed.

Lemma relatedLine_Index line :
  relatedLine line
  = match Str.Index line TAB with
    | Some m =>
        Some (fmt.verb_s_minus 40 (Some 40) (Str.take m line) +:+ " ("
              +:+ Str.drop (S m) line +:+ ")" +:+ fmt.LF)
    | None => None
    end.
Proof.
  unfold relatedLine. rewrite SplitN_2 by done.
  destruct (Str.Index line TAB) as [m|]; [|done].
  rewrite decide_True by done. cbn [lookup_total list_lookup_total].
  by rewrite Nat.add_1_r.
Qed.

(** X8: on a line it has not seen, the loop of [printResults] prints a row
    exactly when the line holds a tab.  The row shows the text before the
    first tab as the command and all that follows that tab, further tabs
    included, as the directory. *)
Theorem related_row seen line :
  is_seen seen line = false →
  (exec (printLines seen [line])).2
  = match Str.Index line TAB with
    | Some m =>
        [Stdout (fmt.verb_s_minus 40 (Some 40) (Str.take m line) +:+ " ("
                 +:+ Str.drop (S m) line +:+ ")" +:+ fmt.LF)]
    | None => []
    end.
Proof.
  intros Hnew. rewrite exec_printLines. cbn [snd unseen]. rewrite Hnew.
  cbn [negb omap list_omap]. rewrite relatedLine_Index.
  by destruct (Str.Index line TAB).
Qed.

(** X9: the map [seen] after the loop of [printResults] holds [true] for
    every line the loop has read, printed or not, and is unchanged at every
    other key. *)
Theorem seen_after_printLines seen lines x :
  (x ∈ lines → (exec (printLines seen lines)).1 !! x = Some true)
  ∧ (x ∉ lines → (exec (printLines seen lines)).1 !! x = seen !! x).
Proof.
  rewrite exec_printLines. cbn [fst].
  revert seen. induction lines as [|line rest IH]; intros seen.
  { split; [by intros ?%elem_of_nil | done]. }
  cbn [mark]. destruct (IH seen) as [IHin IHout].
  destruct (IH (<[line:=true]> seen)) as [IHin' IHout'].
  destruct (is_seen seen line) eqn:Hseen; simpl; split.
  - intros [->|Hx]%elem_of_cons; [|by apply IHin].
    destruct (decide (line ∈ rest)); [by apply IHin|].
    rewrite IHout by done. unfold is_seen in Hseen.
    by destruct (seen !! line) as [[]|].
  - intros [Hne Hx]%not_elem_of_cons. by apply IHout.
  - intros [->|Hx]%elem_of_cons; [|by apply IHin'].
    destruct (decide (line ∈ rest)); [by apply IHin'|].
    rewrite IHout' by done. apply lookup_insert_eq.
  - intros [Hne Hx]%not_elem_of_cons. rewrite IHout' by done.
    by apply lookup_insert_ne.
Qed.

(** X10: on a well-formed input [fzfPreview] returns without an error
    exactly when both queries answer. *)
Theorem fzfPreview_ok_iff data :
  5 ≤ length (Str.Split data _delim) →
  ((exec (fzfPreview env data)).1 = None
   ↔ result_err (env_Output env (globalSearch (Str.Split data _delim !!! 0))) = None
     ∧ result_err (env_Output env (dirSearch (Str.Split data _delim !!! 0)
                                             (Str.Split data _delim !!! 2))) = None).
Proof.
  intros Hlen. destruct (fzfPreview_report env data Hlen) as (-> & _ & _).
  unfold errors_Join.
  destruct (result_err _) as [ea|], (result_err _) as [eb|]; simpl; naive_solver.
Qed.

Lemma filter_Forall (P : string → Prop) `{!∀ x, Decision (P x)} (l : list string) :
  Forall P l → filter P l = l.
Proof.
  induction 1 as [|x l Hx _ IH]; [done|]. by rewrite filter_cons_True, IH.
Qed.

Lemma filter_none (P : string → Prop) `{!∀ x, Decision (P x)} (l : list string) :
  Forall (λ x, ¬ P x) l → filter P l = [].
Proof.
  induction 1 as [|x l Hx _ IH]; [done|]. by rewrite filter_cons_False.
Qed.

Lemma first_seen_NoDup l : NoDup l → first_seen l = l.
Proof.
  induction 1 as [|x l Hx _ IH]; [done|]. simpl. f_equal. rewrite IH.
  apply filter_Forall. apply Forall_forall. intros y Hy ->. done.
Qed.

(** X11: when no line comes twice in the answers of the two queries, every
    line is shown: the rows are those of the global answer followed by those
    of the answer for the directory. *)
Theorem related_without_duplicates data a b :
  5 ≤ length (Str.Split data _delim) →
  env_Output env (globalSearch (Str.Split data _delim !!! 0)) = inr a →
  env_Output env (dirSearch (Str.Split data _delim !!! 0) (Str.Split data _delim !!! 2))
    = inr b →
  NoDup (a ++ b) →
  stdout_of (exec (fzfPreview env data)).2
  = stdout_of (exec (printHeader (Str.Split data _delim !!! 0)
                                 (Str.Split data _delim !!! 1)
                                 (Str.Split data _delim !!! 2)
                                 (Str.Split data _delim !!! 3)
                                 (Str.Split data _delim !!! 4))).2
    ++ omap relatedLine a ++ omap relatedLine b.
Proof.
  intros Hlen Ha Hb Hnodup.
  destruct (fzfPreview_report env data Hlen) as (_ & -> & _).
  rewrite Ha, Hb. simpl. unfold merged.
  by rewrite first_seen_NoDup, omap_app.
Qed.

(** X12: when the query for the directory answers only lines the global
    query has answered, it adds no row: the report is the one the global
    answer alone gives. *)
Theorem related_nothing_new data a b :
  5 ≤ length (Str.Split data _delim) →
  env_Output env (globalSearch (Str.Split data _delim !!! 0)) = inr a →
  env_Output env (dirSearch (Str.Split data _delim !!! 0) (Str.Split data _delim !!! 2))
    = inr b →
  (∀ x, x ∈ b → x ∈ a) →
  stdout_of (exec (fzfPreview env data)).2
  = stdout_of (exec (printHeader (Str.Split data _delim !!! 0)
                                 (Str.Split data _delim !!! 1)
                                 (Str.Split data _delim !!! 2)
                                 (Str.Split data _delim !!! 3)
                                 (Str.Split data _delim !!! 4))).2
    ++ omap relatedLine (first_seen a).
Proof.
  intros Hlen Ha Hb Hsub.
  destruct (fzfPreview_report env data Hlen) as (_ & -> & _).
  rewrite Ha, Hb. simpl. unfold merged. rewrite first_seen_app.
  rewrite filter_none; [by rewrite (right_id_L [] (++))|].
  apply Forall_forall. intros x Hx Hnot.
  apply (proj1 (elem_of_first_seen b x)) in Hx. by apply Hnot, Hsub.
Qed.

End related.

(** ** More on [run] and [main] *)

Section entry.

Context (env : Env) (backend : Scanner).

(** Every way through [run]: one goal for each answer of the surroundings
    on which [run] branches, with the trace written out. *)
Ltac run_cases :=
  unfold run, run_body, altuinSearch, atuinAdapt, fzf, exec, mbind, IO_bind,
    mret, IO_ret, emit; simpl;
  destruct (env_StdoutPipe env _) as [?|]; simpl; [|
  destruct (env_Start env _) as [?|]; simpl; [|
  destruct (env_Pipe env) as [?|]; simpl; [|
  destruct (env_Executable env) as [? [?|]]; simpl; [|
  destruct (env_Run env _) as [?|]; simpl; [|
  destruct (env_Wait env _) as [?|]; simpl]]]]].


(** [run] itself writes nothing to standard output, captures the output of
    no command and calls [log.Fatal] nowhere. *)
Lemma run_quiet query :
  stdout_of (exec (run env backend query)).2 = []
  ∧ commands_of (exec (run env backend query)).2 = []
  ∧ fatals_of (exec (run env backend query)).2 = [].
Proof. run_cases; done. Qed.

Lemma appends_run query : appends (run env backend query).
Proof.
  unfold run, run_body, altuinSearch, atuinAdapt, fzf.
  repeat first
    [ apply appends_ret | apply appends_emit
    | apply appends_bind; [|intros ?]
    | match goal with |- appends (match ?x with _ => _ end) => destruct x end ].
Qed.

Lemma main_not_preview Args :
  Args !! 1 ≠ Some "--preview" →
  bool_decide (1 < length Args) && bool_decide (Args !!! 1 = "--preview") = false.
Proof.
  intros Hne. destruct Args as [|prog [|arg more]]; [done..|].
  apply andb_false_iff. right. apply bool_decide_eq_false_2.
  simpl in *. congruence.
Qed.

Lemma main_query Args :
  (if decide (1 < length Args) then Args !!! 1 else "") = default "" (Args !! 1).
Proof.
  destruct Args as [|prog [|arg more]]; [done..|].
  cbn [length]. by destruct (decide (1 < S (S (length more)))); [|lia].
Qed.




(** X15: in search mode the program itself writes nothing to standard
    output, which is left to the selector, and runs none of the queries of
    the preview. *)
Theorem search_mode_silent Args :
  Args !! 1 ≠ Some "--preview" →
  stdout_of (exec (main env backend Args)).2 = []
  ∧ commands_of (exec (main env backend Args)).2 = [].
Proof.
  intros Hne. unfold main. rewrite main_not_preview, main_query by done.
  rewrite exec_bind.
  2:{ intros [e|]; [|apply appends_ret].
      apply appends_bind; [apply appends_emit | intros; apply appends_ret]. }
  cbn [snd]. unfold stdout_of, commands_of. rewrite !omap_app.
  destruct (run_quiet (default "" (Args !! 1))) as (Hout & Hcmd & _).
  unfold stdout_of, commands_of in Hout, Hcmd. rewrite Hout, Hcmd.
  by destruct (exec (run env backend _)).1.
Qed.

(** [main] in preview mode is [fzfPreview] on the argument after
    [--preview], then [log.Fatal] on its error. *)
Lemma main_preview_bind prog data more :
  main env backend (prog :: "--preview" :: data :: more)
  = (err ← fzfPreview env data;
     match err with
     | Some e => emit (LogFatal e);; mret 1%Z
     | None => mret 0%Z
     end).
Proof.
  unfold main. cbn [length lookup_total list_lookup_total].
  rewrite !(bool_decide_eq_true_2 (1 < _)) by lia.
  by rewrite !(decide_True (P := 2 < _)) by lia.
Qed.

(** X16: in preview mode [main] reads one record only: arguments after the
    record change nothing. *)
Theorem main_preview_extra_args prog data more :
  main env backend (prog :: "--preview" :: data :: more)
  = main env backend [prog; "--preview"; data].
Proof.
  rewrite (main_preview_bind prog data more).
  by rewrite (main_preview_bind prog data []).
Qed.





End entry.

(** ** The width of a related row *)

Section layout.

Implicit Types s : string.

Lemma DecodeRuneSize_ascii c s :
  ascii_only (String c s) = true → utf8.DecodeRuneSize (String c s) = 1.
Proof.
  simpl. intros [Hc _]%andb_true_iff. apply Nat.ltb_lt in Hc.
  unfold utf8.first. by rewrite (proj2 (Nat.ltb_lt _ 194)) by lia.
Qed.

Lemma RuneCount_loop_ascii s fuel :
  ascii_only s = true → String.length s ≤ fuel →
  utf8.RuneCount_loop fuel s = String.length s.
Proof.
  revert fuel. induction s as [|c s IH]; intros fuel Hs Hfuel.
  - by destruct fuel.
  - destruct fuel as [|fuel]; [simpl in Hfuel; lia|].
    cbn [utf8.RuneCount_loop]. rewrite DecodeRuneSize_ascii by done.
    simpl in Hs, Hfuel. apply andb_true_iff in Hs as [_ Hs].
    simpl. f_equal. apply IH; [done | lia].
Qed.

Lemma take_runes_ascii s fuel n :
  ascii_only s = true → String.length s ≤ fuel →
  utf8.take_runes fuel n s = Str.take n s.
Proof.
  revert fuel n. induction s as [|c s IH]; intros fuel n Hs Hfuel.
  - by destruct fuel, n.
  - destruct fuel as [|fuel]; [simpl in Hfuel; lia|].
    destruct n as [|n]; [done|].
    cbn [utf8.take_runes]. rewrite DecodeRuneSize_ascii by done.
    simpl in Hs, Hfuel. apply andb_true_iff in Hs as [_ Hs].
    simpl. f_equal. apply IH; [done | lia].
Qed.

Lemma ascii_only_take n s : ascii_only s = true → ascii_only (Str.take n s) = true.
Proof.
  revert s; induction n as [|n IH]; intros [|c s]; simpl; try done.
  intros [Hc Hs]%andb_true_iff. rewrite Hc. simpl. by apply IH.
Qed.

Lemma length_spaces n : String.length (Str.spaces n) = n.
Proof. induction n as [|n IH]; simpl; [done | by rewrite IH]. Qed.

(** [%-40.40s] on bytes below 128: the first [prec] bytes, filled with
    spaces up to [wid]. *)
Lemma verb_s_minus_ascii wid prec s :
  ascii_only s = true →
  fmt.verb_s_minus wid (Some prec) s
  = Str.take prec s +:+ Str.spaces (wid - prec `min` String.length s).
Proof.
  intros Hs. unfold fmt.verb_s_minus, fmt.padString_minus, fmt.truncateString.
  rewrite take_runes_ascii by done. f_equal. f_equal. f_equal.
  unfold utf8.RuneCountInString.
  rewrite RuneCount_loop_ascii; [apply str_length_take | by apply ascii_only_take | done].
Qed.

(** X18: a related line whose command, the text before its first tab, is
    made of bytes below 128 gives a row whose first column is exactly 40
    bytes: the first 40 bytes of the command, filled up with spaces. *)
Theorem related_row_width (seen : gmap string bool) line m :
  is_seen seen line = false →
  Str.Index line TAB = Some m →
  ascii_only (Str.take m line) = true →
  (exec (printLines seen [line])).2
  = [Stdout (Str.take 40 (Str.take m line) +:+ Str.spaces (40 - m) +:+ " ("
             +:+ Str.drop (S m) line +:+ ")" +:+ fmt.LF)]
  ∧ String.length (Str.take 40 (Str.take m line) +:+ Str.spaces (40 - m)) = 40.
Proof.
  intros Hnew Hm Hascii.
  pose proof (Index_le _ _ _ Hm) as Hle.
  assert (String.length (Str.take m line) = m) as Hlen
    by (rewrite str_length_take; lia).
  split.
  - rewrite exec_printLines. cbn [snd unseen]. rewrite Hnew.
    cbn [negb omap list_omap]. rewrite relatedLine_Index, Hm.
    rewrite verb_s_minus_ascii, Hlen by done.
    replace (40 - 40 `min` m) with (40 - m) by lia.
    by rewrite str_app_assoc.
  - rewrite str_length_app, str_length_take, length_spaces, Hlen. lia.
Qed.

End layout.

(** ** The enriched line, split again *)

Section reparse.

Implicit Types s f x line : string.

(** A delimiter at the head of a string is three colons. *)
Lemma HasPrefix_delim_inv s :
  Str.HasPrefix s _delim = true →
  ∃ r, s = String colon (String colon (String colon r)).
Proof. intros H%HasPrefix_inv. exists (Str.drop 3 s). exact H. Qed.

Lemma HasPrefix_delim_cons c s :
  c ≠ colon → Str.HasPrefix (String c s) _delim = false.
Proof.
  intros Hc. destruct (Str.HasPrefix (String c s) _delim) eqn:E; [|done].
  apply HasPrefix_delim_inv in E as [r [= -> _]]. by destruct Hc.
Qed.

Lemma free_before_cons c s n :
  c ≠ colon → free_before n s → free_before (S n) (String c s).
Proof.
  intros Hc Hs [|k] Hk.
  - by apply HasPrefix_delim_cons.
  - apply Hs. lia.
Qed.

Lemma free_before_0 s : free_before 0 s.
Proof. intros k Hk. lia. Qed.

(** A field without a delimiter, followed by a byte that is no colon, has no
    delimiter that begins in it. *)
Lemma free_before_field f c rest :
  Str.Index f _delim = None → c ≠ colon →
  free_before (String.length f) (f +:+ String c rest).
Proof.
  intros Hf Hc. induction f as [|a f IH]; [intros k Hk; simpl in Hk; lia|].
  intros [|k] Hk.
  - pose proof (Index_None _ _ 0 Hf) as H0.
    change (Str.drop 0 ?t) with t in *.
    destruct (Str.HasPrefix (String a f +:+ String c rest) _delim) eqn:E; [|done].
    apply HasPrefix_delim_inv in E as [r Hr]. exfalso.
    change (String a f +:+ String c rest) with (String a (f +:+ String c rest)) in Hr.
    injection Hr as -> Hr.
    destruct f as [|b f].
    { change ("" +:+ String c rest) with (String c rest) in Hr.
      injection Hr as -> _. by destruct Hc. }
    change (String b f +:+ String c rest) with (String b (f +:+ String c rest)) in Hr.
    injection Hr as -> Hr.
    destruct f as [|d f].
    { change ("" +:+ String c rest) with (String c rest) in Hr.
      injection Hr as -> _. by destruct Hc. }
    change (String d f +:+ String c rest) with (String d (f +:+ String c rest)) in Hr.
    injection Hr as -> _.
    pose proof (HasPrefix_app _delim f) as Htrue.
    change (_delim +:+ f) with (String colon (String colon (String colon f))) in Htrue.
    congruence.
  - change (Str.drop (S k) (String a f +:+ String c rest))
      with (Str.drop k (f +:+ String c rest)).
    apply IH; [|simpl in Hk; lia].
    apply Index_None_intro. intros j. apply (Index_None _ _ (S j) Hf).
Qed.

Lemma free_before_app f s n :
  free_before (String.length f) (f +:+ s) → free_before n s →
  free_before (String.length f + n) (f +:+ s).
Proof.
  intros Hf Hs k Hk. destruct (decide (k < String.length f)) as [Hlt|Hge].
  - by apply Hf.
  - replace k with (String.length f + (k - String.length f)) by lia.
    rewrite str_drop_add, str_drop_app_length. apply Hs. lia.
Qed.

Lemma free_before_no_colon p s :
  no_colon p = true → free_before (String.length p) (p +:+ s).
Proof.
  induction p as [|c p IH]; [intros _; apply free_before_0|].
  simpl. intros [Hc Hp]%andb_true_iff.
  change (String c p +:+ s) with (String c (p +:+ s)).
  apply free_before_cons; [|by apply IH].
  apply negb_true_iff, bool_decide_eq_false in Hc. done.
Qed.

(** The exit marker is one field: when the exit code holds no delimiter,
    none begins in the marker, nor runs over its end. *)
Lemma exitStatus_closes exitCode :
  Str.Index exitCode _delim = None → closes _delim (exitStatus exitCode).
Proof.
  intros Hcode. unfold exitStatus. case_decide; [|by vm_compute].
  unfold closes.
  change (tcolor.Foreground tcolor.Red ("exit " +:+ exitCode))
    with ((tcolor.ESC +:+ "[38;5;1mexit ") +:+ exitCode +:+ (tcolor.ESC +:+ "[0m")).
  set (pre := tcolor.ESC +:+ "[38;5;1mexit ").
  set (post := tcolor.ESC +:+ "[0m").
  apply Index_Some_intro.
  - rewrite !str_length_app. lia.
  - by rewrite str_drop_app_length.
  - fold (free_before (String.length (pre +:+ exitCode +:+ post))
                      ((pre +:+ exitCode +:+ post) +:+ _delim)).
    rewrite !str_length_app, !str_app_assoc.
    apply free_before_app; [by apply free_before_no_colon|].
    apply free_before_app.
    + change (post +:+ _delim)
        with (String (Ascii.ascii_of_nat 27) ("[0m" +:+ _delim)).
      apply free_before_field; [done|]. intros E. vm_compute in E. discriminate E.
    + by apply free_before_no_colon.
Qed.

Lemma dirCtx_no_delim curDir directory :
  Str.Index (dirCtx curDir directory) _delim = None.
Proof. unfold dirCtx. by case_decide. Qed.

(** Fields that close keep their places whatever is put after them. *)
Lemma Split_Join_more fields x sep :
  sep ≠ "" → fields ≠ [] → Forall (closes sep) fields →
  Str.Split (Str.Join fields sep +:+ sep +:+ x) sep = fields ++ Str.Split x sep.
Proof.
  intros Hsep Hne Hfields. induction Hfields as [|f fields Hf Hfs IH]; [done|].
  destruct fields as [|f' fields].
  - simpl. rewrite Split_step, Index_closes by done.
    by rewrite str_take_app_length, str_drop_add, !str_drop_app_length.
  - rewrite Join_cons by done. rewrite !str_app_assoc.
    rewrite Split_step, Index_closes by done.
    rewrite str_take_app_length, str_drop_add, !str_drop_app_length.
    by rewrite IH.
Qed.

(** X19: the enriched line of a record of five fields whose last field
    closes, split at the delimiter as the selector splits it, has exactly
    seven fields: the five of the record, then the exit marker and the
    directory annotation. *)
Theorem enriched_seven_fields curDir line f0 f1 f2 f3 f4 out :
  Str.Split line _delim = [f0; f1; f2; f3; f4] →
  closes _delim f4 →
  adaptLine curDir line = inr out →
  Str.Split out _delim = [f0; f1; f2; f3; f4; exitStatus f1; dirCtx curDir f2].
Proof.
  intros Hparts Hf4 Hout.
  rewrite (adaptLine_parts _ _ _ _ _ _ _ _ Hparts) in Hout. injection Hout as <-.
  destruct (Split_closes line _delim [f0; f1; f2; f3] f4 delim_not_nil Hparts)
    as (_ & Hfields & _).
  apply (Split_Join [f0; f1; f2; f3; f4; exitStatus f1] (dirCtx curDir f2) _delim
           delim_not_nil); [|apply dirCtx_no_delim].
  apply (Forall_app _ [f0; f1; f2; f3] [f4; exitStatus f1]).
  split; [done|]. repeat constructor; [done|].
  apply exitStatus_closes, closes_Index_None; [done|].
  by inversion Hfields as [|? ? _ Hrest]; inversion Hrest.
Qed.

(** X20: what is put after a record of five fields whose last field closes
    does not change its preview: [fzfPreview] on the record followed by a
    delimiter and anything, as the preview command of the selector hands
    over the record with its exit marker, does what it does on the record. *)
Theorem fzfPreview_ignores_suffix (env : Env) line f0 f1 f2 f3 f4 x :
  Str.Split line _delim = [f0; f1; f2; f3; f4] →
  closes _delim f4 →
  fzfPreview env (line +:+ _delim +:+ x) = fzfPreview env line.
Proof.
  intros Hparts Hf4.
  destruct (Split_closes line _delim [f0; f1; f2; f3] f4 delim_not_nil Hparts)
    as (Hline & Hfields & _).
  assert (Str.Split (line +:+ _delim +:+ x) _delim
          = [f0; f1; f2; f3; f4] ++ Str.Split x _delim) as Hmore.
  { rewrite Hline. apply Split_Join_more; [done..|].
    apply (Forall_app _ [f0; f1; f2; f3] [f4]). by split; [|repeat constructor]. }
  unfold fzfPreview. rewrite Hmore, Hparts.
  rewrite decide_False by (rewrite length_app; simpl; lia).
  by rewrite decide_False by (simpl; lia).
Qed.

End reparse.

(** ** Further worked executions *)

Example example_lines_indexable : Forall indexable example_lines.
Proof. repeat constructor; unfold indexable; vm_compute; lia. Qed.

Lemma scanner_error_panics_witness :
  Forall indexable (tokens example_failing)
  ∧ accepts (fresh_pipe None None) (length (tokens example_failing))
  ∧ scan_err example_failing = Some (Foreign "read |0: file already closed")
  ∧ atuinAdapt_go "/home/u" example_failing (fresh_pipe None None)
    = (Panicked (PanicError (Foreign "read |0: file already closed")), [],
       after_writes (fresh_pipe None None) (enriched "/home/u" <$> tokens example_failing))
  ∧ closed (atuinAdapt_go "/home/u" example_failing (fresh_pipe None None)).2
    = closed (fresh_pipe None None).
Proof.
  split; [exact example_lines_indexable|]. split; [exact I|]. split; [reflexivity|].
  exact (scanner_error_panics "/home/u" example_failing (fresh_pipe None None) _
           example_lines_indexable I eq_refl).
Defined.

Lemma close_error_panics_witness :
  Forall indexable (tokens example_input)
  ∧ accepts example_unclosable (length (tokens example_input))
  ∧ scan_err example_input = None
  ∧ close_err example_unclosable = Some (Foreign "close |1: file already closed")
  ∧ (atuinAdapt_go "/home/u" example_input example_unclosable).1
    = (Panicked (PanicError (Foreign "close |1: file already closed")), [])
  ∧ written (atuinAdapt_go "/home/u" example_input example_unclosable).2
    = written example_unclosable ++ (enriched "/home/u" <$> tokens example_input).
Proof.
  split; [exact example_lines_indexable|]. split; [exact I|].
  split; [reflexivity|]. split; [reflexivity|].
  exact (close_error_panics "/home/u" example_input example_unclosable _
           example_lines_indexable I eq_refl eq_refl).
Defined.

Lemma pipe_closed_iff_witness :
  closed (fresh_pipe (Some 1) None) = false
  ∧ (closed (atuinAdapt_go "/home/u" example_input (fresh_pipe (Some 1) None)).2 = true
     ↔ Forall indexable (tokens example_input)
       ∧ accepts (fresh_pipe (Some 1) None) (length (tokens example_input))
       ∧ scan_err example_input = None).
Proof.
  split; [reflexivity|].
  exact (pipe_closed_iff "/home/u" example_input (fresh_pipe (Some 1) None) eq_refl).
Defined.

(** A command that holds the delimiter moves every later field by one: the
    exit code read is ["b"], and the timestamp is lost. *)
Example example_long_enriched :
  adaptLine "/home/u" example_long
  = inr ("echo a:::b:::0:::/home/u:::1s:::" +:+ tcolor.ESC +:+ "[38;5;1mexit b"
         +:+ tcolor.ESC +:+ "[0m:::").
Proof. reflexivity. Qed.

Lemma adaptLine_first_five_witness :
  indexable example_long
  ∧ fiveFields (Str.Join (take 5 (Str.Split example_long _delim)) _delim)
  ∧ adaptLine "/home/u" example_long
    = adaptLine "/home/u" (Str.Join (take 5 (Str.Split example_long _delim)) _delim)
  ∧ (5 < length (Str.Split example_long _delim) →
     example_long = Str.Join (take 5 (Str.Split example_long _delim)) _delim +:+ _delim
                    +:+ Str.Join (drop 5 (Str.Split example_long _delim)) _delim).
Proof.
  assert (indexable example_long) as Hidx by (unfold indexable; vm_compute; lia).
  split; [exact Hidx|].
  exact (adaptLine_first_five "/home/u" example_long Hidx).
Defined.

Lemma fzfPreview_first_five_witness :
  5 ≤ length (Str.Split example_long _delim)
  ∧ fzfPreview example_env_both example_long
    = fzfPreview example_env_both
        (Str.Join (take 5 (Str.Split example_long _delim)) _delim).
Proof.
  assert (5 ≤ length (Str.Split example_long _delim)) as Hlen by (vm_compute; lia).
  split; [exact Hlen|].
  exact (fzfPreview_first_five example_env_both example_long Hlen).
Defined.

Lemma related_row_witness :
  is_seen ∅ example_row = false
  ∧ (exec (printLines ∅ [example_row])).2
    = match Str.Index example_row TAB with
      | Some m =>
          [Stdout (fmt.verb_s_minus 40 (Some 40) (Str.take m example_row) +:+ " ("
                   +:+ Str.drop (S m) example_row +:+ ")" +:+ fmt.LF)]
      | None => []
      end.
Proof.
  split; [reflexivity|].
  exact (related_row ∅ example_row eq_refl).
Defined.

Lemma seen_after_printLines_witness :
  ("b" +:+ TAB +:+ "/y") ∈ example_global
  ∧ (exec (printLines ∅ example_global)).1 !! ("b" +:+ TAB +:+ "/y") = Some true
  ∧ (("c" +:+ TAB +:+ "/z") ∉ example_global)
  ∧ (exec (printLines ∅ example_global)).1 !! ("c" +:+ TAB +:+ "/z")
    = (∅ : gmap string bool) !! ("c" +:+ TAB +:+ "/z").
Proof.
  assert (("b" +:+ TAB +:+ "/y") ∈ example_global) as Hin.
  { apply elem_of_cons. right. apply elem_of_cons. by left. }
  assert (("c" +:+ TAB +:+ "/z") ∉ example_global) as Hout.
  { intros H. apply elem_of_cons in H as [H|H]; [discriminate H|].
    apply elem_of_cons in H as [H|H]; [discriminate H|].
    by apply elem_of_nil in H. }
  split; [exact Hin|].
  split; [exact (proj1 (seen_after_printLines ∅ example_global _) Hin)|].
  split; [exact Hout|].
  exact (proj2 (seen_after_printLines ∅ example_global _) Hout).
Defined.

Lemma fzfPreview_ok_iff_witness :
  5 ≤ length (Str.Split example_data _delim)
  ∧ ((exec (fzfPreview example_env_one example_data)).1 = None
     ↔ result_err (env_Output example_env_one
                     (globalSearch (Str.Split example_data _delim !!! 0))) = None
       ∧ result_err (env_Output example_env_one
                       (dirSearch (Str.Split example_data _delim !!! 0)
                                  (Str.Split example_data _delim !!! 2))) = None).
Proof.
  assert (5 ≤ length (Str.Split example_data _delim)) as Hlen by (vm_compute; lia).
  split; [exact Hlen|].
  exact (fzfPreview_ok_iff example_env_one example_data Hlen).
Defined.

Lemma related_without_duplicates_witness :
  5 ≤ length (Str.Split example_data _delim)
  ∧ NoDup (example_global ++ ["c" +:+ TAB +:+ "/z"])
  ∧ stdout_of (exec (fzfPreview example_env_disjoint example_data)).2
    = stdout_of (exec (printHeader "a" "0" "/home/u" "1s" "2h ago")).2
      ++ omap relatedLine example_global ++ omap relatedLine ["c" +:+ TAB +:+ "/z"].
Proof.
  assert (5 ≤ length (Str.Split example_data _delim)) as Hlen by (vm_compute; lia).
  assert (NoDup (example_global ++ ["c" +:+ TAB +:+ "/z"])) as Hnd.
  { repeat (apply NoDup_cons; split;
      [intros H; repeat (apply elem_of_cons in H as [H|H]; [discriminate H|]);
       by apply elem_of_nil in H|]).
    apply NoDup_nil_2. }
  split; [exact Hlen|]. split; [exact Hnd|].
  exact (related_without_duplicates example_env_disjoint example_data
           example_global ["c" +:+ TAB +:+ "/z"] Hlen eq_refl eq_refl Hnd).
Defined.

Lemma related_nothing_new_witness :
  5 ≤ length (Str.Split example_data _delim)
  ∧ (∀ x, x ∈ example_global → x ∈ example_global)
  ∧ stdout_of (exec (fzfPreview example_env_same example_data)).2
    = stdout_of (exec (printHeader "a" "0" "/home/u" "1s" "2h ago")).2
      ++ omap relatedLine (first_seen example_global).
Proof.
  assert (5 ≤ length (Str.Split example_data _delim)) as Hlen by (vm_compute; lia).
  split; [exact Hlen|]. split; [exact (λ x H, H)|].
  exact (related_nothing_new example_env_same example_data
           example_global example_global Hlen eq_refl eq_refl (λ x H, H)).
Defined.


Lemma search_mode_silent_witness :
  ["atuin-fzf"] !! 1 ≠ Some "--preview"
  ∧ stdout_of (exec (main example_env_both example_input ["atuin-fzf"])).2 = []
  ∧ commands_of (exec (main example_env_both example_input ["atuin-fzf"])).2 = [].
Proof.
  assert (["atuin-fzf"] !! 1 ≠ Some "--preview") as Hne by discriminate.
  split; [exact Hne|].
  exact (search_mode_silent example_env_both example_input ["atuin-fzf"] Hne).
Defined.

Lemma related_row_width_witness :
  is_seen ∅ example_row = false
  ∧ Str.Index example_row TAB = Some 10
  ∧ ascii_only (Str.take 10 example_row) = true
  ∧ (exec (printLines ∅ [example_row])).2
    = [Stdout (Str.take 40 (Str.take 10 example_row) +:+ Str.spaces (40 - 10) +:+ " ("
               +:+ Str.drop 11 example_row +:+ ")" +:+ fmt.LF)]
  ∧ String.length (Str.take 40 (Str.take 10 example_row) +:+ Str.spaces (40 - 10)) = 40.
Proof.
  split; [reflexivity|]. split; [reflexivity|]. split; [reflexivity|].
  exact (related_row_width ∅ example_row 10 eq_refl eq_refl eq_refl).
Defined.

Lemma enriched_seven_fields_witness :
  Str.Split "make:::2:::/src:::3s:::1h ago" _delim = ["make"; "2"; "/src"; "3s"; "1h ago"]
  ∧ closes _delim "1h ago"
  ∧ adaptLine "/home/u" "make:::2:::/src:::3s:::1h ago"
    = inr (Str.Join ["make"; "2"; "/src"; "3s"; "1h ago";
                     exitStatus "2"; dirCtx "/home/u" "/src"] _delim)
  ∧ Str.Split (Str.Join ["make"; "2"; "/src"; "3s"; "1h ago";
                         exitStatus "2"; dirCtx "/home/u" "/src"] _delim) _delim
    = ["make"; "2"; "/src"; "3s"; "1h ago"; exitStatus "2"; dirCtx "/home/u" "/src"].
Proof.
  split; [reflexivity|]. split; [reflexivity|]. split; [reflexivity|].
  exact (enriched_seven_fields "/home/u" "make:::2:::/src:::3s:::1h ago"
           "make" "2" "/src" "3s" "1h ago" _ eq_refl eq_refl eq_refl).
Defined.

Lemma fzfPreview_ignores_suffix_witness :
  Str.Split example_data _delim = ["a"; "0"; "/home/u"; "1s"; "2h ago"]
  ∧ closes _delim "2h ago"
  ∧ fzfPreview example_env_both (example_data +:+ _delim +:+ exitStatus "0")
    = fzfPreview example_env_both example_data.
Proof.
  split; [reflexivity|]. split; [reflexivity|].
  exact (fzfPreview_ignores_suffix example_env_both example_data
           "a" "0" "/home/u" "1s" "2h ago" (exitStatus "0") eq_refl eq_refl).
Defined.

(** A timestamp that ends in a colon does not close: the enriched line then
    splits one byte early at its end. *)
Example example_open_field :
  Str.Split "c:::0:::/d:::1s:::12:" _delim = ["c"; "0"; "/d"; "1s"; "12:"]
  ∧ ¬ closes _delim "12:"
  ∧ Str.Split (Str.Join ["c"; "0"; "/d"; "1s"; "12:"; exitStatus "0"; dirCtx "/x" "/d"]
                 _delim) _delim
    = ["c"; "0"; "/d"; "1s"; "12"; ": "; ""].
Proof. split; [reflexivity|]. split; [|reflexivity]. unfold closes. by vm_compute. Qed.
